(** * visma-verifications: splitting a verification list by result unit

    A shallow embedding of [main.go].  The program reads a
    semicolon-separated verification list, discovers the result units
    named in column 5, routes every voucher group to the units it
    touches and writes one file per unit.

    Conventions of the embedding:
    - a [Line] is Go's [[]string]; [line[i]] is a lookup that panics out
      of range;
    - the [*ResultUnit] pointers of the program are positions in the
      slice built by [findResultUnits] (every element of that slice is a
      freshly allocated struct, so positions and pointers correspond one
      to one); appending through a pointer is [alter] at that position;
    - [log.Fatal] and [panic] end the process: they are the [Abort]
      values, and the loop of [splitFileByResult] reports the memory it
      had built when it stopped;
    - the file system and the log are an explicit [World]. *)

From Stdlib Require Import Ascii String ZArith.
From stdpp Require Import gmap strings list fin_maps.

(** ** Strings *)

(** The one-character string holding a double quote (byte 34). *)
Definition quote : string := String "034"%char EmptyString.
Definition semicolon : ascii := ";"%char.
Definition newline : ascii := "010"%char.

(** [strings.HasPrefix(s, prefix)]. *)
Definition strings_HasPrefix (s prefix : string) : bool := String.prefix prefix s.

(** [strings.Index(s, substr)]: position of the first occurrence, or -1. *)
Definition strings_Index (s substr : string) : Z :=
  match String.index 0 substr s with
  | Some n => Z.of_nat n
  | None => (-1)%Z
  end.

(** [strings.Join(elems, sep)]. *)
Definition strings_Join (elems : list string) (sep : string) : string :=
  String.concat sep elems.

(** [strings.Split] on a single byte: the pieces between the
    separators, at least one. *)
Fixpoint splitOn (sep : ascii) (s : string) : list string :=
  match s with
  | EmptyString => [EmptyString]
  | String c s' =>
      if Ascii.eqb c sep then EmptyString :: splitOn sep s'
      else
        match splitOn sep s' with
        | f :: fs => String c f :: fs
        | [] => [String c EmptyString]
        end
  end.

Definition slash : ascii := "/"%char.

(** One element of a path in [path.Clean]: an empty element (a doubled
    or trailing slash) and [.] are dropped; [..] removes the element
    before it, is dropped at the root, and is kept where nothing can be
    removed; any other element is kept.  [kept] holds the elements
    kept so far, the last one at its end. *)
Definition cleanStep (rooted : bool) (kept : list string) (elem : string)
    : list string :=
  if bool_decide (elem = "") then kept
  else if bool_decide (elem = ".") then kept
  else if bool_decide (elem = "..") then
    match last kept with
    | Some top =>
        if bool_decide (top = "..") then kept ++ [".."] else removelast kept
    | None => if rooted then kept else kept ++ [".."]
    end
  else kept ++ [elem].

(** [path.Clean(p)]: the shortest path name equivalent to [p] by
    purely lexical processing; the empty path becomes [.]. *)
Definition path_Clean (p : string) : string :=
  if bool_decide (p = "") then "."
  else
    let rooted := String.prefix "/" p in
    let body :=
      String.concat "/" (foldl (cleanStep rooted) [] (splitOn slash p)) in
    if rooted then "/" +:+ body
    else if bool_decide (body = "") then "." else body.

(** [path.Join(dir, name)]: the non-empty elements joined by a slash,
    and the result cleaned; the empty path when both are empty. *)
Definition path_Join (dir name : string) : string :=
  if bool_decide (dir = "") then
    if bool_decide (name = "") then "" else path_Clean name
  else path_Clean (dir +:+ "/" +:+ name).

(** ** Aborts *)

Inductive Abort : Type :=
  | FatalInvalidCSV        (* log.Fatal("Invalid CSV file, the line did not contain 8 elements") *)
  | PanicIndexOutOfRange   (* runtime panic of an index expression *)
  | PanicNoDefaultUnit     (* panic("A result unit with the name Ztyret was not found ") *)
  | FatalMkdir.            (* log.Fatal(err) after os.MkdirAll(exportDir) *)

Inductive res (A : Type) : Type :=
  | Ok (a : A)
  | Err (e : Abort).
Arguments Ok {A} a.
Arguments Err {A} e.

#[global] Instance res_ret : MRet res := λ A a, Ok a.
#[global] Instance res_bind : MBind res := λ A B f m,
  match m with
  | Ok a => f a
  | Err e => Err e
  end.

#[global] Instance Abort_eq_dec : EqDecision Abort.
Proof. solve_decision. Defined.

(** ** Data model *)

Definition Line : Type := list string.

Record ResultUnit : Type := mkResultUnit {
  Name : string;
  Buffer : list Line
}.

(** [line[i]]. *)
Definition field (line : Line) (i : nat) : res string :=
  match line !! i with
  | Some s => Ok s
  | None => Err PanicIndexOutOfRange
  end.

(** The memory of [splitFileByResult]: the result units reachable
    through the pointers, and the two local slices the line parsers
    receive by reference. *)
Record State : Type := mkState {
  units : list ResultUnit;
  buffer : list Line;
  currentResultUnits : list nat
}.

(** ** The line parsers *)

(** [o.Name == owner] for the unit the pointer [o] refers to. *)
Definition nameIs (us : list ResultUnit) (owner : string) (o : nat) : bool :=
  match us !! o with
  | Some u => bool_decide (Name u = owner)
  | None => false
  end.

(** The loop [for _, o := range resultUnits] of [parseDebetCreditLine]:
    [i] is the position of the head of [us]. *)
Fixpoint appendNamed (owner : string) (us : list ResultUnit) (i : nat)
    (cur : list nat) : list nat :=
  match us with
  | [] => cur
  | o :: us' =>
      appendNamed owner us' (S i)
        (if bool_decide (Name o = owner) then cur ++ [i] else cur)
  end.

Definition parseDebetCreditLine (line : Line) (st : State) : res (bool * State) :=
  owner ← field line 5;
  if bool_decide (owner ≠ "") && negb (strings_HasPrefix owner quote) then
    let exists_ := existsb (nameIs (units st) owner) (currentResultUnits st) in
    let cur :=
      if negb exists_
      then appendNamed owner (units st) 0 (currentResultUnits st)
      else currentResultUnits st in
    Ok (true, mkState (units st) (buffer st ++ [line]) cur)
  else Ok (false, st).

Definition parseEmptyLine (line : Line) (st : State) : res (bool * State) :=
  ver ← field line 0;
  if bool_decide (ver = "") then
    Ok (true, mkState (units st) (buffer st ++ [line]) (currentResultUnits st))
  else Ok (false, st).

(** [o.Buffer = append(o.Buffer, buff)]. *)
Definition push (b : Line) (u : ResultUnit) : ResultUnit :=
  mkResultUnit (Name u) (Buffer u ++ [b]).

(** The nested loops of [parseNewVerificatLine]. *)
Definition flush (us : list ResultUnit) (cur : list nat) (buf : list Line)
    : list ResultUnit :=
  foldl (λ us b, foldl (λ us o, alter (push b) o us) us cur) us buf.

Definition parseNewVerificatLine (line : Line) (defaultResultUnit : nat)
    (st : State) : res (bool * State) :=
  let cur :=
    if bool_decide (length (currentResultUnits st) = 0)
    then [defaultResultUnit]
    else currentResultUnits st in
  let us := flush (units st) cur (buffer st) in
  Ok (true, mkState us ([] ++ [line]) []).

(** One iteration of the loop of [splitFileByResult]. *)
Definition processLine (defaultResultUnit : nat) (st : State) (line : Line)
    : res State :=
  if bool_decide (length line ≠ 8) then Err FatalInvalidCSV
  else
    '(parsed, st1) ← parseDebetCreditLine line st;
    if parsed : bool then Ok st1
    else
      '(parsed, st2) ← parseEmptyLine line st1;
      if parsed : bool then Ok st2
      else
        '(parsed, st3) ← parseNewVerificatLine line defaultResultUnit st2;
        Ok st3.

(** The loop itself.  When a line aborts the process, the memory is the
    one the earlier lines left. *)
Fixpoint splitLoop (defaultResultUnit : nat) (st : State) (lines : list Line)
    : State * option Abort :=
  match lines with
  | [] => (st, None)
  | line :: rest =>
      match processLine defaultResultUnit st line with
      | Ok st' => splitLoop defaultResultUnit st' rest
      | Err e => (st, Some e)
      end
  end.

Definition initState (resultUnits : list ResultUnit) : State :=
  mkState resultUnits [] [].

(** [splitFileByResult]: the result units it returns or, when the
    process was stopped, the ones in memory at that moment. *)
Definition splitFileByResult (resultUnits : list ResultUnit)
    (defaultResultUnit : nat) (lines : list Line)
    : list ResultUnit * option Abort :=
  let '(st, e) := splitLoop defaultResultUnit (initState resultUnits) lines in
  (units st, e).

(** ** Unit discovery *)

(** The first loop of [findResultUnits]. *)
Fixpoint collectOwners (lines : list Line) (ownerMap : gmap string bool)
    : res (gmap string bool) :=
  match lines with
  | [] => Ok ownerMap
  | line :: rest =>
      owner ← field line 5;
      if bool_decide (strings_Index owner quote = 0%Z) then
        collectOwners rest ownerMap
      else if bool_decide (owner = "") then
        collectOwners rest ownerMap
      else collectOwners rest (<[owner := true]> ownerMap)
  end.

(** The second loop ranges over the map; Go leaves the order of that
    iteration open, the embedding takes the order of [map_to_list] and
    no theorem below depends on it. *)
Definition findResultUnits (lines : list Line) : res (list ResultUnit) :=
  ownerMap ← collectOwners lines ∅;
  Ok ((λ o, mkResultUnit o []) <$> (map_to_list ownerMap).*1).

(** ** Configuration *)

Definition defaultResultUnitName : string := "Ztyret".

Definition resultMap : gmap string string :=
  list_to_map
    [ ("IntrezzeK", "Ztyret"); ("Revisorer", "Ztyret"); ("VB", "Ztyret");
      ("ZKK", "Ztyret"); ("Zpel", "Ztyret"); ("Ztyret", "Ztyret");
      (String "Z" (String "195" (String "131" (String "226" (String "128"
         (String "166" "G"))))), "Ztyret");
      ("WebGroup", "Ztyret") ].

(** The search loop of [main]: the first unit with the default name. *)
Definition findDefault (name : string) (resultUnits : list ResultUnit)
    : option nat :=
  fst <$> list_find (λ r, Name r = name) resultUnits.

(** ** Export *)

(** [type DumpFn func(buffer []Line) ([]byte, string, error)]: the
    bytes, the extension and the error (its message) that is [None] for
    Go's [nil]. *)
Definition DumpFn : Type := list Line → string * string * option string.

Definition dumpCSV : DumpFn := λ buffer,
  let buff :=
    foldl (λ buff line,
             buff +:+ (strings_Join line ";" +:+ String newline EmptyString))
          EmptyString buffer in
  (buff, "csv", None).

Inductive LogEntry : Type :=
  | LogFailed (unitName : string) (err : string)
      (* "Failed to export result for %s: %s" *)
  | LogSuccess (unitName : string) (outFile : string).
      (* "Successfully exported result for %s to %s" *)

(** The world of a run: what each path name holds, as the system calls
    were given it, the directories made, and the log. *)
Record World : Type := mkWorld {
  files : gmap string string;
  dirs : gset string;
  logged : list LogEntry
}.

(** Which calls of the operating system fail is not decided by the
    program: it is a parameter of a run. *)
Record IO : Type := mkIO {
  mkdirFails : string → bool;
  writeFails : string → bool;
  (* what a failing write leaves at the path: [None] when the file could
     not be opened, [Some n] when it was created or truncated and [n]
     bytes were written before the failure *)
  writtenBeforeFailure : string → option nat
}.

Definition logf (e : LogEntry) (w : World) : World :=
  mkWorld (files w) (dirs w) (logged w ++ [e]).

(** [os.MkdirAll(dir, 0770)]. *)
Definition os_MkdirAll (io : IO) (dir : string) (w : World)
    : World * option string :=
  if mkdirFails io dir then (w, Some "mkdir")
  else (mkWorld (files w) ({[dir]} ∪ dirs w) (logged w), None).

(** [ioutil.WriteFile(outFile, data, 0664)]: the file is opened with
    create and truncate, then written.  A failure to open leaves the
    file as it was; a failure after that leaves the bytes written so
    far. *)
Definition ioutil_WriteFile (io : IO) (outFile data : string) (w : World)
    : World * option string :=
  if writeFails io outFile then
    match writtenBeforeFailure io outFile with
    | None => (w, Some "write")
    | Some n =>
        (mkWorld (<[outFile := String.substring 0 n data]> (files w))
           (dirs w) (logged w), Some "write")
    end
  else (mkWorld (<[outFile := data]> (files w)) (dirs w) (logged w), None).

Definition logFailure (owner : ResultUnit) (err : option string) (w : World)
    : World :=
  match err with
  | Some e => logf (LogFailed (Name owner) e) w
  | None => w
  end.

(** The body of the loop of [writeFile]. *)
Definition exportUnit (io : IO) (resultMap : gmap string string)
    (dump : DumpFn) (exportDir : string) (w : World) (owner : ResultUnit)
    : World :=
  let '(data, ext, err) := dump (Buffer owner) in
  let w := logFailure owner err w in
  let '(w, outFile) :=
    match resultMap !! Name owner with
    | Some targetDir =>
        let outDir := path_Join exportDir targetDir in
        let '(w, _) := os_MkdirAll io outDir w in
        (w, path_Join outDir (Name owner +:+ "." +:+ ext))
    | None =>
        let outDir := path_Join exportDir (Name owner) in
        let '(w, err) := os_MkdirAll io outDir w in
        let w := logFailure owner err w in
        (w, path_Join outDir ("13. Verifikatlista." +:+ ext))
    end in
  let '(w, err) := ioutil_WriteFile io outFile data w in
  let w := logFailure owner err w in
  match err with
  | None => logf (LogSuccess (Name owner) outFile) w
  | Some _ => w
  end.

Definition writeFile (io : IO) (resultUnits : list ResultUnit)
    (resultMap : gmap string string) (dump : DumpFn) (exportDir : string)
    (w : World) : World * option Abort :=
  let '(w, err) := os_MkdirAll io exportDir w in
  match err with
  | Some _ => (w, Some FatalMkdir)
  | None => (foldl (exportUnit io resultMap dump exportDir) w resultUnits, None)
  end.

(** ** The run *)

(** How a run ends: the abort, if any, the result units in memory and
    the world at that moment. *)
Record Exit : Type := mkExit {
  status : option Abort;
  memory : list ResultUnit;
  world : World
}.

(** [main], from the lines [readFile] returned on. *)
Definition main (io : IO) (dump : DumpFn) (outDir : string)
    (lines : list Line) (w : World) : Exit :=
  match findResultUnits lines with
  | Err e => mkExit (Some e) [] w
  | Ok resultUnits =>
      match findDefault defaultResultUnitName resultUnits with
      | None => mkExit (Some PanicNoDefaultUnit) resultUnits w
      | Some defaultResultUnit =>
          match splitFileByResult resultUnits defaultResultUnit lines with
          | (resultUnits, Some e) => mkExit (Some e) resultUnits w
          | (resultUnits, None) =>
              let '(w', e) := writeFile io resultUnits resultMap dump outDir w in
              mkExit e resultUnits w'
          end
      end
  end.

(** ** Re-reading a delimited-text export *)

(** The lines of a text: the pieces ended by a newline, and what
    follows the last newline when it is not empty. *)
Definition textLines (text : string) : list string :=
  let pieces := splitOn newline text in
  match last pieces with
  | Some EmptyString => removelast pieces
  | _ => pieces
  end.

(** Re-splitting an exported text by the separator of the input. *)
Definition resplit (text : string) : list Line :=
  splitOn semicolon <$> textLines text.

Definition contains (c : ascii) (s : string) : Prop :=
  c ∈ list_ascii_of_string s.

(** A field that holds neither the separator nor a line end. *)
Definition plainField (s : string) : Prop :=
  ¬ contains semicolon s ∧ ¬ contains newline s.

(** ** Vocabulary of the partition engine *)

(** The owning unit a line names: column 5 when it is neither empty nor
    quoted. *)
Definition ownerOf (line : Line) : option string :=
  match line !! 5 with
  | Some owner =>
      if bool_decide (owner ≠ "") && negb (strings_HasPrefix owner quote)
      then Some owner else None
  | None => None
  end.

(** Column 5 is empty or begins with a quote. *)
Definition unowned (line : Line) : Prop :=
  ∃ owner, line !! 5 = Some owner ∧
    (owner = "" ∨ strings_HasPrefix owner quote = true).

Definition isOwnershipLine (line : Line) : Prop :=
  length line = 8 ∧ is_Some (ownerOf line).

Definition isContinuationLine (line : Line) : Prop :=
  length line = 8 ∧ unowned line ∧ line !! 0 = Some "".

Definition isNewVoucherLine (line : Line) : Prop :=
  length line = 8 ∧ unowned line ∧ ∃ ver, line !! 0 = Some ver ∧ ver ≠ "".

(** A line that stays in the voucher group of the line before it. *)
Definition isGroupLine (line : Line) : Prop :=
  isOwnershipLine line ∨ isContinuationLine line.

(** The positions of the units a list of group lines names. *)
Definition touches (us : list ResultUnit) (rows : list Line) (i : nat) : Prop :=
  ∃ row u, row ∈ rows ∧ us !! i = Some u ∧ ownerOf row = Some (Name u).

(** The units a voucher group is committed to. *)
Definition target (us : list ResultUnit) (defaultResultUnit : nat)
    (rows : list Line) (i : nat) : Prop :=
  touches us rows i ∨ (i = defaultResultUnit ∧ ∀ j, ¬ touches us rows j).

(** Appending rows to a unit. *)
Definition pushAll (rows : list Line) (u : ResultUnit) : ResultUnit :=
  mkResultUnit (Name u) (Buffer u ++ rows).

Arguments flush : simpl never.
Arguments path_Join : simpl never.

(** ** Vocabulary of the proofs *)

(** The set of active units after an ownership line naming [owner]. *)
Definition activate (us : list ResultUnit) (owner : string) (cur : list nat)
    : list nat :=
  if existsb (nameIs us owner) cur then cur else appendNamed owner us 0 cur.

(** The units a flush writes to. *)
Definition flushTargets (defaultResultUnit : nat) (cur : list nat) : list nat :=
  match cur with
  | [] => [defaultResultUnit]
  | _ => cur
  end.

(** The invariant of the set of active units: no unit twice, only
    existing units, and the units of one name all together. *)
Record activeOk (us : list ResultUnit) (cur : list nat) : Prop := mkActiveOk {
  active_NoDup : NoDup cur;
  active_bound : ∀ i, i ∈ cur → is_Some (us !! i);
  active_closed : ∀ i j ui uj,
    i ∈ cur → us !! i = Some ui → us !! j = Some uj →
    Name uj = Name ui → j ∈ cur
}.

(** How the loop ended: all lines read, or stopped in front of a line
    that does not have 8 fields. *)
Definition endedAt (e : option Abort) (rest : list Line) : Prop :=
  match e with
  | None => rest = []
  | Some a => a = FatalInvalidCSV ∧ ∃ bad rest', rest = bad :: rest' ∧ length bad ≠ 8
  end.

(** The memories the loop passes through. *)
Definition reachable (resultUnits : list ResultUnit) (d : nat) (st : State)
    : Prop :=
  ∃ lines, splitLoop d (initState resultUnits) lines = (st, None).

(** The active units after the lines of a group. *)
Fixpoint activateAll (us : list ResultUnit) (rows : list Line) (cur : list nat)
    : list nat :=
  match rows with
  | [] => cur
  | row :: rows' =>
      activateAll us rows'
        (match ownerOf row with
         | Some owner => activate us owner cur
         | None => cur
         end)
  end.

(** The claim on rows that do not have 8 fields, as the specification
    states it: the run stops with the input-format error before any
    partitioning and before any output. *)
Definition abortsWithInputFormatError (io : IO) (dump : DumpFn)
    (outDir : string) (lines : list Line) (w : World) : Prop :=
  let e := main io dump outDir lines w in
  status e = Some FatalInvalidCSV ∧ world e = w ∧
  Forall (λ u, Buffer u = []) (memory e).

(** The text [dumpCSV] writes. *)
Definition csvText (buffer : list Line) : string := (dumpCSV buffer).1.1.

(** The file [exportUnit] writes for a unit. *)
Definition outFileOf (resultMap : gmap string string) (exportDir : string)
    (owner : ResultUnit) (ext : string) : string :=
  match resultMap !! Name owner with
  | Some targetDir =>
      path_Join (path_Join exportDir targetDir) (Name owner +:+ "." +:+ ext)
  | None =>
      path_Join (path_Join exportDir (Name owner)) ("13. Verifikatlista." +:+ ext)
  end.

(** A log entry about the unit of that name. *)
Definition reports (name : string) (e : LogEntry) : Prop :=
  match e with
  | LogFailed n _ => n = name
  | LogSuccess n _ => n = name
  end.

(** A voucher group: a new-voucher line and the group lines after it. *)
Definition isGroup (g : list Line) : Prop :=
  ∃ v rows, g = v :: rows ∧ isNewVoucherLine v ∧ Forall isGroupLine rows.

(** Some line of [rows] names the unit at position [i] as its owner. *)
Definition namedBy (us : list ResultUnit) (rows : list Line) (i : nat) : bool :=
  match us !! i with
  | Some u => existsb (λ row, bool_decide (ownerOf row = Some (Name u))) rows
  | None => false
  end.

(** The routing rule of the loop, as a test: the rows go to the units
    they name, and to the default unit when they name none. *)
Definition routedTo (us : list ResultUnit) (d : nat) (rows : list Line)
    (i : nat) : bool :=
  namedBy us rows i ||
  (bool_decide (i = d) && negb (existsb (namedBy us rows) (seq 0 (length us)))).

(** The rows of the chunks routed to the unit at position [i], in the
    order of the chunks. *)
Definition delivered (us : list ResultUnit) (d : nat)
    (chunks : list (list Line)) (i : nat) : list Line :=
  concat (filter (λ g, routedTo us d g i = true) chunks).

(** The active units are the ones the pending rows name. *)
Definition pendingOk (st : State) : Prop :=
  currentResultUnits st = activateAll (units st) (buffer st) [].

(** The bytes and the extension the serializer returns for a unit, and
    the file [exportUnit] then writes. *)
Definition dataOf (dump : DumpFn) (owner : ResultUnit) : string :=
  (dump (Buffer owner)).1.1.

Definition extOf (dump : DumpFn) (owner : ResultUnit) : string :=
  (dump (Buffer owner)).1.2.

Definition outFile (resultMap : gmap string string) (exportDir : string)
    (dump : DumpFn) (owner : ResultUnit) : string :=
  outFileOf resultMap exportDir owner (extOf dump owner).

(** ** Sample inputs *)

Definition sampleUnits : list ResultUnit :=
  [mkResultUnit "VB" []; mkResultUnit "Ztyret" []].
Definition header : Line := ["1"; ""; "h1"; "h2"; "h3"; ""; ""; ""].
Definition debitVB : Line := [""; ""; "x"; ""; ""; "VB"; ""; ""].
Definition debitZtyret : Line := [""; ""; "y"; ""; ""; "Ztyret"; ""; ""].
Definition detail : Line := [""; ""; "z"; ""; ""; ""; ""; ""].
Definition voucher2 : Line := ["2"; ""; "v"; ""; ""; ""; ""; ""].
Definition ioNeverFails : IO := mkIO (λ _, false) (λ _, false) (λ _, None).
Definition emptyWorld : World := mkWorld ∅ ∅ [].

Definition quotedOwner : string := String "034"%char "Lit".
Definition quotedLine : Line := [""; ""; "q"; ""; ""; quotedOwner; ""; ""].
Definition shortLine : Line := ["1"; ""; "a"; "b"; "c"; "VB"; "g"].
Definition fiveFields : Line := ["1"; ""; "a"; "b"; "c"].

Definition debitSemicolon : Line := [""; ""; "a;b"; ""; ""; "Ztyret"; ""; ""].

(** A serializer that fails on an empty buffer and is [dumpCSV]
    elsewhere. *)
Definition failingDump : DumpFn := λ buffer,
  if bool_decide (buffer = [])
  then (EmptyString, EmptyString, Some "serialization failed")
  else dumpCSV buffer.

Definition voucher3 : Line := ["3"; ""; "w"; ""; ""; ""; ""; ""].

(** Writing the file of the unit VB fails, nothing else does. *)
Definition ioVBFails : IO :=
  mkIO (λ _, false) (λ p, bool_decide (p = "out/Ztyret/VB.csv")) (λ _, None).

(** ** Tactics *)

Ltac solve_unowned :=
  eexists; split; [reflexivity | first [left; reflexivity | right; reflexivity]].

Ltac solve_line :=
  lazymatch goal with
  | |- isNewVoucherLine _ =>
      split; [reflexivity | split; [solve_unowned |
        eexists; split; [reflexivity | discriminate]]]
  | |- isContinuationLine _ =>
      split; [reflexivity | split; [solve_unowned | reflexivity]]
  | |- isOwnershipLine _ => split; [reflexivity | eexists; reflexivity]
  | |- isGroupLine _ => first [left; solve_line | right; solve_line]
  | |- Forall _ _ => repeat (constructor; [solve_line|]); constructor
  end.

Ltac pick_last :=
  first [ apply list_elem_of_singleton; reflexivity
        | apply elem_of_app; right; pick_last ].

(** * Properties *)

(** ** Strings *)

Lemma strings_Index_quote (owner : string) :
  strings_Index owner quote = 0%Z ↔ strings_HasPrefix owner quote = true.
Proof.
  unfold strings_Index, strings_HasPrefix.
  destruct owner as [|c s]; [by cbn|].
  cbn [String.index].
  destruct (String.prefix quote (String c s)) eqn:Hp; [by cbn|].
  destruct (String.index 0 quote s); split; (lia || done).
Qed.

Lemma ownerOf_Some (line : Line) (o : string) :
  ownerOf line = Some o ↔
  line !! 5 = Some o ∧ o ≠ "" ∧ strings_HasPrefix o quote = false.
Proof.
  unfold ownerOf. destruct (line !! 5) as [owner|].
  - destruct (decide (owner = "")) as [->|Hne].
    + rewrite bool_decide_eq_false_2 by (intros ?; done). cbn.
      split; [intros [=]|]. intros ([= <-] & ? & _). done.
    + rewrite bool_decide_eq_true_2 by done.
      destruct (strings_HasPrefix owner quote) eqn:Hq; cbn.
      * split; [intros [=]|]. intros ([= <-] & _ & ?). congruence.
      * split; [intros [= <-]; done|]. by intros ([= <-] & _).
  - split; [intros [=]|]. intros ([=] & _).
Qed.

Lemma ownerOf_None_unowned (line : Line) :
  unowned line → ownerOf line = None.
Proof.
  intros (owner & Hl & Ho). unfold ownerOf. rewrite Hl.
  destruct Ho as [-> | ->]; [done|].
  by rewrite andb_false_r.
Qed.

(** ** What one iteration does, by kind of line *)

Lemma processLine_ownership d st line o :
  length line = 8 → ownerOf line = Some o →
  processLine d st line =
    Ok (mkState (units st) (buffer st ++ [line])
          (activate (units st) o (currentResultUnits st))).
Proof.
  intros Hlen (Hl & Hne & Hq)%ownerOf_Some.
  unfold processLine. rewrite bool_decide_eq_false_2 by lia.
  unfold parseDebetCreditLine, field. rewrite Hl. cbn.
  rewrite bool_decide_eq_true_2, Hq by done. cbn.
  unfold activate. by destruct (existsb _ _).
Qed.

Lemma processLine_continuation d st line :
  isContinuationLine line →
  processLine d st line =
    Ok (mkState (units st) (buffer st ++ [line]) (currentResultUnits st)).
Proof.
  intros (Hlen & Hun & H0).
  pose proof (ownerOf_None_unowned _ Hun) as Hno.
  destruct Hun as (owner & Hl & Ho).
  unfold processLine. rewrite bool_decide_eq_false_2 by lia.
  unfold parseDebetCreditLine, field. rewrite Hl. cbn.
  unfold ownerOf in Hno. rewrite Hl in Hno.
  destruct (bool_decide (owner ≠ "") && negb (strings_HasPrefix owner quote));
    [done|]. cbn.
  unfold parseEmptyLine, field. rewrite H0. by cbn.
Qed.

Lemma processLine_newVoucher d st line :
  isNewVoucherLine line →
  processLine d st line =
    Ok (mkState
          (flush (units st) (flushTargets d (currentResultUnits st)) (buffer st))
          [line] []).
Proof.
  intros (Hlen & Hun & ver & H0 & Hver).
  pose proof (ownerOf_None_unowned _ Hun) as Hno.
  destruct Hun as (owner & Hl & Ho).
  unfold processLine. rewrite bool_decide_eq_false_2 by lia.
  unfold parseDebetCreditLine, field. rewrite Hl. cbn.
  unfold ownerOf in Hno. rewrite Hl in Hno.
  destruct (bool_decide (owner ≠ "") && negb (strings_HasPrefix owner quote));
    [done|]. cbn.
  unfold parseEmptyLine, field. rewrite H0. cbn.
  rewrite bool_decide_eq_false_2 by done. cbn.
  unfold flushTargets. by destruct (currentResultUnits st).
Qed.

(** Every line of 8 fields is of exactly one of the three kinds. *)
Lemma line_kinds (line : Line) :
  length line = 8 →
  isOwnershipLine line ∨ isContinuationLine line ∨ isNewVoucherLine line.
Proof.
  intros Hlen.
  destruct (line !! 5) as [owner|] eqn:Hl;
    [|apply lookup_ge_None in Hl; lia].
  destruct (line !! 0) as [ver|] eqn:H0;
    [|apply lookup_ge_None in H0; lia].
  destruct (ownerOf line) as [o|] eqn:Ho.
  { left. split; [done|]. rewrite Ho. by eexists. }
  assert (unowned line) as Hun.
  { exists owner. split; [done|]. unfold ownerOf in Ho. rewrite Hl in Ho.
    case_bool_decide as Hne; [|left; by destruct (decide (owner = ""))].
    destruct (strings_HasPrefix owner quote); [by right|done]. }
  destruct (decide (ver = "")) as [->|Hver].
  - right; left. done.
  - right; right. split; [done|]. split; [done|]. by exists ver.
Qed.

(** The loop stops only for a line that does not have 8 fields. *)
Lemma processLine_Err d st line e :
  processLine d st line = Err e → e = FatalInvalidCSV ∧ length line ≠ 8.
Proof.
  intros H. destruct (decide (length line = 8)) as [Hlen|Hlen].
  - destruct (line_kinds _ Hlen) as [[_ [o Ho]]|[Hc|Hv]].
    + by rewrite (processLine_ownership _ _ _ o) in H.
    + by rewrite processLine_continuation in H.
    + by rewrite processLine_newVoucher in H.
  - unfold processLine in H. rewrite bool_decide_eq_true_2 in H by done.
    by inversion H.
Qed.

Lemma processLine_bad d st line :
  length line ≠ 8 → processLine d st line = Err FatalInvalidCSV.
Proof. intros H. unfold processLine. by rewrite bool_decide_eq_true_2. Qed.

(** ** Activating the units of an owner *)

Lemma appendNamed_app owner us i cur :
  appendNamed owner us i cur = cur ++ appendNamed owner us i [].
Proof.
  revert i cur. induction us as [|o us IH]; intros i cur; cbn.
  - by rewrite app_nil_r.
  - case_bool_decide; [|done].
    rewrite (IH _ (cur ++ [i])), (IH _ ([] ++ [i])). by rewrite app_assoc.
Qed.

Lemma elem_of_appendNamed_nil owner us i j :
  j ∈ appendNamed owner us i [] ↔
  i ≤ j ∧ ∃ u, us !! (j - i) = Some u ∧ Name u = owner.
Proof.
  revert i. induction us as [|o us IH]; intros i; cbn.
  - split; [by intros ?%elem_of_nil|]. by intros (_ & u & ? & _).
  - assert (j ∈ appendNamed owner us (S i) [] ↔
            S i ≤ j ∧ ∃ u, (o :: us) !! (j - i) = Some u ∧ Name u = owner)
      as Htl.
    { rewrite IH. split.
      - intros (Hle & u & Hu & Hn). split; [done|]. exists u. split; [|done].
        replace (j - i) with (S (j - S i)) by lia. done.
      - intros (Hle & u & Hu & Hn). split; [done|]. exists u. split; [|done].
        replace (j - i) with (S (j - S i)) in Hu by lia. done. }
    case_bool_decide as Hn.
    + rewrite appendNamed_app. cbn. rewrite elem_of_cons, Htl. split.
      * intros [->|(Hle & Hu)]; [|split; [lia|done]].
        split; [done|]. exists o. by rewrite Nat.sub_diag.
      * intros (Hle & Hu). destruct (decide (j = i)) as [->|]; [by left|].
        right. split; [lia|done].
    + rewrite Htl. split.
      * intros (Hle & Hu). split; [lia|done].
      * intros (Hle & u & Hu & Hnu). split; [|by exists u].
        destruct (decide (j = i)) as [->|]; [|lia].
        rewrite Nat.sub_diag in Hu. cbn in Hu. congruence.
Qed.

Lemma NoDup_appendNamed_nil owner us i : NoDup (appendNamed owner us i []).
Proof.
  revert i. induction us as [|o us IH]; intros i; cbn; [constructor|].
  case_bool_decide; [|done].
  rewrite appendNamed_app. cbn. constructor; [|done].
  rewrite elem_of_appendNamed_nil. lia.
Qed.

Lemma existsb_nameIs us owner cur :
  existsb (nameIs us owner) cur = true ↔
  ∃ i u, i ∈ cur ∧ us !! i = Some u ∧ Name u = owner.
Proof.
  rewrite existsb_exists. unfold nameIs. split.
  - intros (i & Hi%list_elem_of_In & Hn).
    destruct (us !! i) as [u|] eqn:Hu; [|done].
    apply bool_decide_eq_true in Hn. by exists i, u.
  - intros (i & u & Hi & Hu & Hn). exists i. split; [by apply list_elem_of_In|].
    rewrite Hu. by apply bool_decide_eq_true.
Qed.

Lemma activeOk_nil us : activeOk us [].
Proof.
  split; [constructor|by intros i ?%elem_of_nil|].
  by intros i j ui uj ?%elem_of_nil.
Qed.

Lemma elem_of_activate us owner cur i :
  activeOk us cur →
  i ∈ activate us owner cur ↔
  i ∈ cur ∨ ∃ u, us !! i = Some u ∧ Name u = owner.
Proof.
  intros Hok. unfold activate.
  destruct (existsb (nameIs us owner) cur) eqn:Hex.
  - apply existsb_nameIs in Hex as (k & uk & Hk & Huk & Hnk).
    split; [by left|]. intros [?|(u & Hu & Hn)]; [done|].
    eapply (active_closed _ _ Hok k i); eauto. congruence.
  - rewrite appendNamed_app, elem_of_app, elem_of_appendNamed_nil.
    rewrite Nat.sub_0_r. split.
    + intros [?|(_ & ?)]; [by left|by right].
    + intros [?|?]; [by left|]. right. split; [lia|done].
Qed.

Lemma activeOk_activate us owner cur :
  activeOk us cur → activeOk us (activate us owner cur).
Proof.
  intros Hok. pose proof (elem_of_activate us owner cur) as Hin.
  unfold activate in *. destruct (existsb (nameIs us owner) cur) eqn:Hex; [done|].
  assert (∀ i u, i ∈ cur → us !! i = Some u → Name u ≠ owner) as Hfresh.
  { intros i u Hi Hu Hn.
    assert (existsb (nameIs us owner) cur = true) as Hex'
      by (apply existsb_nameIs; eauto).
    congruence. }
  split.
  - rewrite appendNamed_app. apply NoDup_app. split; [apply Hok|].
    split; [|apply NoDup_appendNamed_nil].
    intros i Hi (_ & u & Hu & Hn)%elem_of_appendNamed_nil.
    rewrite Nat.sub_0_r in Hu. by eapply Hfresh.
  - intros i [Hi|(u & Hu & _)]%Hin; [by apply Hok|by eexists|done].
  - intros i j ui uj [Hi|(u & Hu & Hn)]%Hin Hui Huj Hnn; [| |done].
    + apply Hin; [done|]. left. eapply (active_closed _ _ Hok i j); eauto.
    + apply Hin; [done|]. right. exists uj. split; [done|]. congruence.
Qed.

(** ** Flushing *)

Lemma pushAll_nil u : pushAll [] u = u.
Proof. destruct u. unfold pushAll. cbn. by rewrite app_nil_r. Qed.

Lemma pushAll_push b rows u : pushAll rows (push b u) = pushAll (b :: rows) u.
Proof. unfold pushAll, push. cbn. by rewrite <- app_assoc. Qed.

Lemma pushAll_app rows1 rows2 u :
  pushAll rows2 (pushAll rows1 u) = pushAll (rows1 ++ rows2) u.
Proof. unfold pushAll. cbn. by rewrite <- app_assoc. Qed.

(** The inner loop, for one row: every unit of [cur] receives it. *)
Lemma lookup_flush_row (us : list ResultUnit) (cur : list nat) b i :
  NoDup cur →
  foldl (λ us o, alter (push b) o us) us cur !! i =
    (if decide (i ∈ cur) then push b <$> us !! i else us !! i).
Proof.
  intros Hnd. revert us. induction Hnd as [|o cur Ho Hnd IH]; intros us; cbn.
  - by case_decide as Hin; [apply elem_of_nil in Hin|].
  - rewrite IH. rewrite list_lookup_alter.
    destruct (decide (o = i)) as [->|Hne].
    + rewrite decide_False by done. rewrite decide_True by left. done.
    + destruct (decide (i ∈ cur)) as [Hi|Hi].
      * rewrite decide_True by (by right). done.
      * rewrite decide_False; [done|]. intros [->|?]%elem_of_cons; done.
Qed.

(** The whole flush: every unit of [cur] receives the pending rows, in
    their order, and no other unit changes. *)
Lemma lookup_flush (us : list ResultUnit) (cur : list nat) buf i :
  NoDup cur →
  flush us cur buf !! i =
    (if decide (i ∈ cur) then pushAll buf <$> us !! i else us !! i).
Proof.
  intros Hnd. unfold flush. revert us.
  induction buf as [|b buf IH]; intros us; cbn.
  - case_decide; [|done]. destruct (us !! i) as [u|]; [|done].
    cbn. by rewrite pushAll_nil.
  - rewrite IH, lookup_flush_row by done.
    case_decide; [|done]. destruct (us !! i) as [u|]; [|done].
    cbn. by rewrite pushAll_push.
Qed.

(** A flush appends to every unit, whatever [cur] holds. *)
Lemma flush_appends (us : list ResultUnit) (cur : list nat) buf i u :
  us !! i = Some u →
  ∃ added, flush us cur buf !! i = Some (pushAll added u).
Proof.
  unfold flush. revert us u. induction buf as [|b buf IH]; intros us u Hu; cbn.
  - exists []. by rewrite pushAll_nil.
  - assert (∃ added,
      foldl (λ us o, alter (push b) o us) us cur !! i = Some (pushAll added u))
      as (a1 & Ha1).
    { clear IH. revert us u Hu. induction cur as [|o cur IHc]; intros us u Hu; cbn.
      - exists []. by rewrite pushAll_nil.
      - destruct (decide (o = i)) as [->|Hne].
        + destruct (IHc (alter (push b) i us) (push b u)) as (a & Ha).
          { rewrite list_lookup_alter_eq, Hu. done. }
          exists (b :: a). by rewrite Ha, pushAll_push.
        + apply IHc. by rewrite list_lookup_alter_ne. }
    destruct (IH _ _ Ha1) as (a2 & Ha2). exists (a1 ++ a2).
    by rewrite Ha2, pushAll_app.
Qed.

Lemma flush_names (us : list ResultUnit) (cur : list nat) buf :
  Name <$> flush us cur buf = Name <$> us.
Proof.
  unfold flush. revert us. induction buf as [|b buf IH]; intros us; cbn; [done|].
  rewrite IH. clear IH. revert us.
  induction cur as [|o cur IHc]; intros us; cbn; [done|].
  rewrite IHc. apply list_eq. intros k. rewrite !list_lookup_fmap.
  rewrite list_lookup_alter. case_decide as Hk; [subst|done].
  by destruct (us !! k).
Qed.

(** ** The loop *)

Lemma splitLoop_app d st lines1 lines2 :
  splitLoop d st (lines1 ++ lines2) =
    match splitLoop d st lines1 with
    | (st', None) => splitLoop d st' lines2
    | stopped => stopped
    end.
Proof.
  revert st. induction lines1 as [|line lines1 IH]; intros st; cbn; [done|].
  destruct (processLine d st line) as [st'|e]; [apply IH|done].
Qed.

(** Induction over the loop: a property of the lines read so far and of
    the memory that every iteration keeps holds when the loop ends. *)
Lemma splitLoop_invariant d (P : list Line → State → Prop) :
  (∀ read st line st',
     P read st → length line = 8 → processLine d st line = Ok st' →
     P (read ++ [line]) st') →
  ∀ lines st0 st e,
    P [] st0 → splitLoop d st0 lines = (st, e) →
    ∃ read rest, lines = read ++ rest ∧ P read st ∧
      Forall (λ l, length l = 8) read ∧ endedAt e rest.
Proof.
  intros Hstep lines.
  assert (∀ read0 st0 st e,
    P read0 st0 → Forall (λ l, length l = 8) read0 →
    splitLoop d st0 lines = (st, e) →
    ∃ read rest, lines = read ++ rest ∧ P (read0 ++ read) st ∧
      Forall (λ l, length l = 8) (read0 ++ read) ∧ endedAt e rest) as Hgen.
  { induction lines as [|line lines IH]; intros read0 st0 st e HP H8 Hrun; cbn in Hrun.
    - inversion Hrun; subst. exists [], []. rewrite !app_nil_r. by split_and!.
    - destruct (processLine d st0 line) as [st'|a] eqn:Hline.
      + assert (length line = 8) as Hlen.
        { destruct (decide (length line = 8)); [done|].
          by rewrite processLine_bad in Hline. }
        destruct (IH (read0 ++ [line]) st' st e) as (read & rest & -> & HP' & H8' & He).
        { by eapply Hstep. }
        { apply Forall_app. split; [done|]. by constructor. }
        { done. }
        exists (line :: read), rest. rewrite <- app_assoc in HP', H8'. by split_and!.
      + inversion Hrun; subst. apply processLine_Err in Hline as [-> Hlen].
        exists [], (line :: lines). rewrite app_nil_r.
        split_and!; [done..|]. split; [done|]. by exists line, lines. }
  intros st0 st e HP Hrun.
  destruct (Hgen [] st0 st e HP (Forall_nil_2 _) Hrun) as (read & rest & ? & ? & ? & ?).
  by exists read, rest.
Qed.

Lemma processLine_activeOk d st line st' :
  activeOk (units st) (currentResultUnits st) →
  processLine d st line = Ok st' →
  activeOk (units st') (currentResultUnits st').
Proof.
  intros Hok Hline.
  assert (length line = 8) as Hlen.
  { destruct (decide (length line = 8)); [done|].
    by rewrite processLine_bad in Hline. }
  destruct (line_kinds _ Hlen) as [[_ [o Ho]]|[Hc|Hv]].
  - rewrite (processLine_ownership _ _ _ o) in Hline by done.
    inversion Hline; subst; cbn. by apply activeOk_activate.
  - rewrite processLine_continuation in Hline by done.
    by inversion Hline; subst; cbn.
  - rewrite processLine_newVoucher in Hline by done.
    inversion Hline; subst; cbn. apply activeOk_nil.
Qed.

Lemma splitLoop_activeOk d lines st0 st e :
  activeOk (units st0) (currentResultUnits st0) →
  splitLoop d st0 lines = (st, e) →
  activeOk (units st) (currentResultUnits st).
Proof.
  intros Hok Hrun.
  destruct (splitLoop_invariant d
              (λ _ st, activeOk (units st) (currentResultUnits st))
              (λ _ st line st' H _, processLine_activeOk d st line st' H)
              lines st0 st e Hok Hrun) as (_ & _ & _ & H & _).
  done.
Qed.

Lemma reachable_activeOk resultUnits d st :
  reachable resultUnits d st → activeOk (units st) (currentResultUnits st).
Proof.
  intros (lines & Hrun). eapply splitLoop_activeOk; [|done]. apply activeOk_nil.
Qed.

Lemma flushTargets_NoDup d cur : NoDup cur → NoDup (flushTargets d cur).
Proof. destruct cur; [|done]. intros _. cbn. apply NoDup_singleton. Qed.

(** ** Voucher groups *)

Lemma splitLoop_group d st rows :
  Forall isGroupLine rows →
  splitLoop d st rows =
    (mkState (units st) (buffer st ++ rows)
       (activateAll (units st) rows (currentResultUnits st)), None).
Proof.
  intros Hrows. revert st. induction Hrows as [|row rows Hrow _ IH]; intros st; cbn.
  - rewrite app_nil_r. by destruct st.
  - destruct Hrow as [[Hlen [o Ho]]|Hc].
    + rewrite (processLine_ownership _ _ _ o), IH by done. cbn.
      by rewrite Ho, <- app_assoc.
    + rewrite processLine_continuation, IH by done. cbn.
      destruct Hc as (_ & Hun & _). rewrite (ownerOf_None_unowned _ Hun).
      by rewrite <- app_assoc.
Qed.

Lemma activateAll_spec us rows cur :
  activeOk us cur →
  activeOk us (activateAll us rows cur) ∧
  ∀ i, i ∈ activateAll us rows cur ↔ i ∈ cur ∨ touches us rows i.
Proof.
  revert cur. induction rows as [|row rows IH]; intros cur Hok; cbn.
  - split; [done|]. intros i. split; [by left|].
    intros [?|(r & _ & []%elem_of_nil & _)]. done.
  - destruct (ownerOf row) as [owner|] eqn:Ho.
    + destruct (IH _ (activeOk_activate us owner cur Hok)) as [Hok' Hin].
      split; [done|]. intros i. rewrite Hin, elem_of_activate by done.
      split.
      * intros [[?|(u & Hu & Hn)]|(r & u & Hr & Hu & Hown)]; [by left| |].
        -- right. exists row, u. split; [left|]. split; [done|]. congruence.
        -- right. exists r, u. split; [by right|done].
      * intros [?|(r & u & [->|Hr]%elem_of_cons & Hu & Hown)]; [by left; left| |].
        -- left; right. exists u. split; [done|]. congruence.
        -- right. by exists r, u.
    + destruct (IH _ Hok) as [Hok' Hin]. split; [done|]. intros i.
      rewrite Hin. split.
      * intros [?|(r & u & Hr & Hu & Hown)]; [by left|].
        right. exists r, u. split; [by right|done].
      * intros [?|(r & u & [->|Hr]%elem_of_cons & Hu & Hown)]; [by left|congruence|].
        right. by exists r, u.
Qed.

(** A voucher group is committed by the new-voucher line that follows
    it: the units it names, or the default unit when it names none,
    receive all its lines in order, and no other unit changes. *)
Lemma group_commit d st v rows v' :
  isNewVoucherLine v → Forall isGroupLine rows → isNewVoucherLine v' →
  ∃ st1 st2,
    processLine d st v = Ok st1 ∧
    splitLoop d st (v :: rows ++ [v']) = (st2, None) ∧
    buffer st2 = [v'] ∧ currentResultUnits st2 = [] ∧
    ∀ i u, units st1 !! i = Some u →
      (target (units st1) d rows i →
         units st2 !! i = Some (pushAll (v :: rows) u)) ∧
      (¬ target (units st1) d rows i → units st2 !! i = Some u).
Proof.
  intros Hv Hrows Hv'.
  eexists _, _. split; [by apply processLine_newVoucher|].
  cbn [splitLoop]. rewrite processLine_newVoucher by done.
  rewrite splitLoop_app, splitLoop_group by done. cbn.
  rewrite processLine_newVoucher by done. cbn.
  split; [done|]. split; [done|]. split; [done|].
  set (us1 := flush (units st) _ (buffer st)).
  destruct (activateAll_spec us1 rows [] (activeOk_nil us1)) as [Hok Hin].
  assert (∀ i, i ∈ flushTargets d (activateAll us1 rows []) ↔ target us1 d rows i)
    as Htarget.
  { intros i. unfold target.
    destruct (activateAll us1 rows []) as [|k cur] eqn:Hcur; cbn.
    - rewrite list_elem_of_singleton. split.
      + intros ->. right. split; [done|]. intros j Hj.
        assert (j ∈ @nil nat) as []%elem_of_nil. apply Hin. by right.
      + intros [Ht|[-> _]]; [|done].
        assert (i ∈ @nil nat) as []%elem_of_nil. apply Hin. by right.
    - rewrite Hin. split.
      + intros [[]%elem_of_nil|?]. by left.
      + intros [?|[_ Hnone]]; [by right|]. exfalso. apply (Hnone k).
        assert (k ∈ k :: cur) as [[]%elem_of_nil|?]%Hin by left. done. }
  intros i u Hu. cbn [units] in *. fold us1 in Hu |- *.
  rewrite lookup_flush by (apply flushTargets_NoDup, Hok). rewrite Hu.
  split; intros Ht.
  - by rewrite decide_True by (by apply Htarget).
  - rewrite decide_False; [done|]. by intros ?%Htarget.
Qed.

(** ** Claims on the partition engine *)

(** C4: processing a new-voucher line appends every pending row to the
    buffer of every active unit, or to the default unit's buffer only
    when no unit is active, then leaves no unit active and the pending
    buffer holding exactly that line; so a voucher group without an
    ownership line reaches the default unit only. *)
Theorem C4_new_voucher_line_flushes resultUnits d st line :
  reachable resultUnits d st → isNewVoucherLine line →
  ∃ st',
    processLine d st line = Ok st' ∧
    buffer st' = [line] ∧ currentResultUnits st' = [] ∧
    (∀ i u, units st !! i = Some u →
       (currentResultUnits st ≠ [] →
          units st' !! i =
            Some (if decide (i ∈ currentResultUnits st)
                  then pushAll (buffer st) u else u)) ∧
       (currentResultUnits st = [] →
          units st' !! i =
            Some (if decide (i = d) then pushAll (buffer st) u else u))) ∧
    (∀ rows next,
       Forall isContinuationLine rows → isNewVoucherLine next →
       ∃ st2,
         splitLoop d st' (rows ++ [next]) = (st2, None) ∧
         ∀ i u, units st' !! i = Some u →
           units st2 !! i =
             Some (if decide (i = d) then pushAll (line :: rows) u else u)).
Proof.
  intros Hreach Hline.
  pose proof (reachable_activeOk _ _ _ Hreach) as Hok.
  eexists. split; [by apply processLine_newVoucher|]. cbn [buffer currentResultUnits units].
  split; [done|]. split; [done|]. split.
  - intros i u Hu.
    rewrite lookup_flush by (apply flushTargets_NoDup, Hok). rewrite Hu.
    split; intros Hcur.
    + destruct (currentResultUnits st); [done|]. cbn [flushTargets].
      by case_decide.
    + rewrite Hcur. cbn [flushTargets].
      destruct (decide (i = d)) as [->|Hne].
      * by rewrite decide_True by left.
      * rewrite decide_False; [done|]. by intros ?%list_elem_of_singleton.
  - intros rows next Hrows Hnext.
    assert (Forall isGroupLine rows) as Hgroup.
    { eapply Forall_impl; [done|]. intros r Hr. by right. }
    destruct (group_commit d st line rows next Hline Hgroup Hnext)
      as (st1 & st2 & Hst1 & Hrun & _ & _ & Hunits).
    rewrite processLine_newVoucher in Hst1 by done. inversion Hst1; subst st1.
    cbn [splitLoop] in Hrun. rewrite processLine_newVoucher in Hrun by done.
    exists st2. split; [done|]. intros i u Hu.
    assert (∀ j, ¬ touches (units {| units := flush (units st)
        (flushTargets d (currentResultUnits st)) (buffer st);
        buffer := [line]; currentResultUnits := [] |}) rows j) as Hnone.
    { intros j (r & uj & Hr & _ & Hown).
      rewrite Forall_forall in Hrows. destruct (Hrows r Hr) as (_ & Hun & _).
      rewrite (ownerOf_None_unowned _ Hun) in Hown. done. }
    destruct (Hunits i u Hu) as [Hyes Hno].
    destruct (decide (i = d)) as [->|Hne].
    + apply Hyes. by right.
    + apply Hno. intros [Ht|[-> _]]; [by eapply Hnone|done].
Qed.

Lemma C4_new_voucher_line_flushes_witness :
  ∃ st',
    processLine 1 (mkState sampleUnits [header; debitVB] [0]) voucher2 = Ok st' ∧
    buffer st' = [voucher2] ∧ currentResultUnits st' = [] ∧
    units st' !! 0 = Some (mkResultUnit "VB" [header; debitVB]) ∧
    units st' !! 1 = Some (mkResultUnit "Ztyret" []).
Proof.
  destruct (C4_new_voucher_line_flushes sampleUnits 1
              (mkState sampleUnits [header; debitVB] [0]) voucher2)
    as (st' & Hstep & Hbuf & Hcur & Hunits & _).
  - exists [header; debitVB]. reflexivity.
  - solve_line.
  - exists st'. split; [exact Hstep|]. split; [exact Hbuf|]. split; [exact Hcur|].
    split.
    + apply (Hunits 0 (mkResultUnit "VB" [])); [reflexivity|discriminate].
    + apply (Hunits 1 (mkResultUnit "Ztyret" [])); [reflexivity|discriminate].
Defined.

(** C3: when the ownership lines of a voucher group name two
    discovered units A and B, the flush of the group leaves in A's
    buffer and in B's buffer the same copy of every row of the group,
    in the order of the group. *)
Theorem C3_group_copied_to_both_units d st v rows next a b ua ub ra rb :
  isNewVoucherLine v → Forall isGroupLine rows → isNewVoucherLine next →
  a ≠ b → units st !! a = Some ua → units st !! b = Some ub →
  ra ∈ rows → ownerOf ra = Some (Name ua) →
  rb ∈ rows → ownerOf rb = Some (Name ub) →
  ∃ st1 st2 ua1 ub1,
    processLine d st v = Ok st1 ∧
    units st1 !! a = Some ua1 ∧ units st1 !! b = Some ub1 ∧
    splitLoop d st (v :: rows ++ [next]) = (st2, None) ∧
    units st2 !! a = Some (mkResultUnit (Name ua) (Buffer ua1 ++ v :: rows)) ∧
    units st2 !! b = Some (mkResultUnit (Name ub) (Buffer ub1 ++ v :: rows)).
Proof.
  intros Hv Hrows Hnext _ Ha Hb Hra Hoa Hrb Hob.
  destruct (group_commit d st v rows next Hv Hrows Hnext)
    as (st1 & st2 & Hst1 & Hrun & _ & _ & Hunits).
  assert (Name <$> units st1 = Name <$> units st) as Hnames.
  { rewrite processLine_newVoucher in Hst1 by done. inversion Hst1; subst st1.
    apply flush_names. }
  assert (∀ i u, units st !! i = Some u →
            ∃ u1, units st1 !! i = Some u1 ∧ Name u1 = Name u) as Hsame.
  { intros i u Hu.
    assert ((Name <$> units st1) !! i = Some (Name u)) as Hn
      by (by rewrite Hnames, list_lookup_fmap, Hu).
    rewrite list_lookup_fmap in Hn.
    destruct (units st1 !! i) as [u1|]; [|done]. exists u1. split; [done|].
    by inversion Hn. }
  destruct (Hsame a ua Ha) as (ua1 & Hua1 & Hna).
  destruct (Hsame b ub Hb) as (ub1 & Hub1 & Hnb).
  exists st1, st2, ua1, ub1. split_and!; [done..| |].
  - rewrite <- Hna. apply (Hunits a ua1 Hua1). left.
    exists ra, ua1. split_and!; [done..|]. congruence.
  - rewrite <- Hnb. apply (Hunits b ub1 Hub1). left.
    exists rb, ub1. split_and!; [done..|]. congruence.
Qed.

Lemma C3_group_copied_to_both_units_witness :
  ∃ st2,
    splitLoop 1 (initState sampleUnits)
      (header :: [debitVB; detail; debitZtyret] ++ [voucher2]) = (st2, None) ∧
    units st2 !! 0 =
      Some (mkResultUnit "VB" [header; debitVB; detail; debitZtyret]) ∧
    units st2 !! 1 =
      Some (mkResultUnit "Ztyret" [header; debitVB; detail; debitZtyret]).
Proof.
  destruct (C3_group_copied_to_both_units 1 (initState sampleUnits) header
              [debitVB; detail; debitZtyret] voucher2 0 1
              (mkResultUnit "VB" []) (mkResultUnit "Ztyret" [])
              debitVB debitZtyret)
    as (st1 & st2 & ua1 & ub1 & Hst1 & Hua1 & Hub1 & Hrun & Ha & Hb).
  - solve_line.
  - solve_line.
  - solve_line.
  - discriminate.
  - reflexivity.
  - reflexivity.
  - left.
  - reflexivity.
  - right; right; left.
  - reflexivity.
  - exists st2. split; [exact Hrun|].
    vm_compute in Hst1. inversion Hst1; subst st1.
    vm_compute in Hua1, Hub1. inversion Hua1; subst ua1.
    inversion Hub1; subst ub1. split; [exact Ha|exact Hb].
Defined.

Lemma touches_names us1 us2 rows i :
  Name <$> us1 = Name <$> us2 → touches us1 rows i → touches us2 rows i.
Proof.
  intros Hnames (row & u1 & Hrow & Hu1 & Hown).
  assert ((Name <$> us2) !! i = Some (Name u1)) as Hi
    by (by rewrite <- Hnames, list_lookup_fmap, Hu1).
  rewrite list_lookup_fmap in Hi.
  destruct (us2 !! i) as [u2|] eqn:Hu2; [|done].
  cbn in Hi. inversion Hi as [Hname].
  exists row, u2. split_and!; [done..|]. congruence.
Qed.

Lemma target_names us1 us2 d rows i :
  Name <$> us1 = Name <$> us2 → target us1 d rows i → target us2 d rows i.
Proof.
  intros Hnames [Ht|[-> Hnone]].
  - left. by eapply touches_names.
  - right. split; [done|]. intros j Hj. apply (Hnone j).
    by eapply touches_names.
Qed.

(** C7: a header row (field 0 not empty, field 5 empty) is a
    new-voucher line.  Reading it commits only the rows that were
    pending before it and puts the header in no unit; the header is
    then committed with the voucher group it begins, into the units
    that group names, or into the default unit when the group names
    none, and the buffer of every other unit stays as it was before the
    header: the header is not copied into every discovered unit. *)
Theorem C7_header_follows_its_group resultUnits d st h rows next :
  reachable resultUnits d st →
  length h = 8 → (∃ ver, h !! 0 = Some ver ∧ ver ≠ "") → h !! 5 = Some "" →
  Forall isGroupLine rows → isNewVoucherLine next →
  isNewVoucherLine h ∧
  ∃ st1 st2,
    processLine d st h = Ok st1 ∧
    buffer st1 = [h] ∧ currentResultUnits st1 = [] ∧
    splitLoop d st (h :: rows ++ [next]) = (st2, None) ∧
    buffer st2 = [next] ∧ currentResultUnits st2 = [] ∧
    ∀ i u, units st !! i = Some u →
      ∃ u1,
        u1 = (if decide (i ∈ flushTargets d (currentResultUnits st))
              then pushAll (buffer st) u else u) ∧
        (buffer st = [] → u1 = u) ∧
        units st1 !! i = Some u1 ∧
        (target (units st) d rows i →
           units st2 !! i = Some (pushAll (h :: rows) u1)) ∧
        (¬ target (units st) d rows i → units st2 !! i = Some u1).
Proof.
  intros Hreach Hlen Hver H5 Hrows Hnext.
  pose proof (reachable_activeOk _ _ _ Hreach) as Hok.
  assert (isNewVoucherLine h) as Hh.
  { split; [done|]. split; [|done]. exists "". split; [done|by left]. }
  split; [done|].
  destruct (group_commit d st h rows next Hh Hrows Hnext)
    as (st1 & st2 & Hst1 & Hrun & Hbuf2 & Hcur2 & Hunits).
  exists st1, st2. split; [done|].
  rewrite processLine_newVoucher in Hst1 by done. inversion Hst1; subst st1.
  cbn [buffer currentResultUnits units] in *.
  split_and!; [done..|]. intros i u Hu.
  set (us1 := flush (units st) (flushTargets d (currentResultUnits st))
                (buffer st)) in *.
  assert (Name <$> us1 = Name <$> units st) as Hnames by apply flush_names.
  eexists. split; [reflexivity|].
  assert (us1 !! i =
          Some (if decide (i ∈ flushTargets d (currentResultUnits st))
                then pushAll (buffer st) u else u)) as Hu1.
  { unfold us1. rewrite lookup_flush by (apply flushTargets_NoDup, Hok).
    rewrite Hu. by case_decide. }
  split_and!.
  - intros ->. case_decide; [apply pushAll_nil|done].
  - done.
  - intros Ht. apply (Hunits i _ Hu1). by eapply target_names.
  - intros Ht. apply (Hunits i _ Hu1). intros Ht'. apply Ht.
    by eapply target_names.
Qed.

Lemma C7_header_follows_its_group_witness :
  ∃ st2,
    splitLoop 1 (initState sampleUnits) (header :: [debitVB] ++ [voucher2])
      = (st2, None) ∧
    units st2 !! 0 = Some (mkResultUnit "VB" [header; debitVB]) ∧
    units st2 !! 1 = Some (mkResultUnit "Ztyret" []).
Proof.
  destruct (C7_header_follows_its_group sampleUnits 1 (initState sampleUnits)
              header [debitVB] voucher2)
    as (_ & st1 & st2 & _ & _ & _ & Hrun & _ & _ & Hunits).
  - exists []. reflexivity.
  - reflexivity.
  - exists "1". split; [reflexivity|discriminate].
  - reflexivity.
  - solve_line.
  - solve_line.
  - exists st2. split; [exact Hrun|]. split.
    + destruct (Hunits 0 (mkResultUnit "VB" [])) as (u1 & _ & Hu1 & _ & Hyes & _);
        [reflexivity|].
      rewrite (Hu1 eq_refl) in Hyes. apply Hyes.
      left. exists debitVB, (mkResultUnit "VB" []).
      split; [left|split; reflexivity].
    + destruct (Hunits 1 (mkResultUnit "Ztyret" [])) as (u1 & _ & Hu1 & _ & _ & Hno);
        [reflexivity|].
      rewrite (Hu1 eq_refl) in Hno. apply Hno.
      intros [(r & u & Hr & Hu & Hown)|[_ Hnone]].
      * apply list_elem_of_singleton in Hr. subst r.
        vm_compute in Hu. inversion Hu; subst u. discriminate Hown.
      * apply (Hnone 0). exists debitVB, (mkResultUnit "VB" []).
        split; [left|split; reflexivity].
Defined.

(** ** Buffers only grow, in the order of the input *)

Lemma processLine_appends d st line st' i u :
  processLine d st line = Ok st' → units st !! i = Some u →
  ∃ added, units st' !! i = Some (pushAll added u).
Proof.
  intros Hline Hu.
  assert (length line = 8) as Hlen.
  { destruct (decide (length line = 8)); [done|].
    by rewrite processLine_bad in Hline. }
  destruct (line_kinds _ Hlen) as [[_ [o Ho]]|[Hc|Hv]].
  - rewrite (processLine_ownership _ _ _ o) in Hline by done.
    inversion Hline; subst; cbn. exists []. by rewrite pushAll_nil.
  - rewrite processLine_continuation in Hline by done.
    inversion Hline; subst; cbn. exists []. by rewrite pushAll_nil.
  - rewrite processLine_newVoucher in Hline by done.
    inversion Hline; subst; cbn. by apply flush_appends.
Qed.

Lemma processLine_names d st line st' :
  processLine d st line = Ok st' → Name <$> units st' = Name <$> units st.
Proof.
  intros Hline.
  assert (length line = 8) as Hlen.
  { destruct (decide (length line = 8)); [done|].
    by rewrite processLine_bad in Hline. }
  destruct (line_kinds _ Hlen) as [[_ [o Ho]]|[Hc|Hv]].
  - rewrite (processLine_ownership _ _ _ o) in Hline by done.
    by inversion Hline; subst.
  - rewrite processLine_continuation in Hline by done.
    by inversion Hline; subst.
  - rewrite processLine_newVoucher in Hline by done.
    inversion Hline; subst; cbn. apply flush_names.
Qed.

(** What the loop has done when it ends: it has read a prefix of the
    lines, all of 8 fields, and every unit holds what it held before
    followed by rows of that prefix, in the order of the prefix. *)
Lemma splitLoop_buffers d resultUnits lines st e :
  splitLoop d (initState resultUnits) lines = (st, e) →
  ∃ read rest,
    lines = read ++ rest ∧ Forall (λ l, length l = 8) read ∧ endedAt e rest ∧
    Name <$> units st = Name <$> resultUnits ∧
    ∀ i u0, resultUnits !! i = Some u0 →
      ∃ added, units st !! i = Some (pushAll added u0) ∧
               added `sublist_of` read.
Proof.
  intros Hrun.
  pose proof (splitLoop_invariant d
    (λ read st,
       activeOk (units st) (currentResultUnits st) ∧
       Name <$> units st = Name <$> resultUnits ∧
       ∃ q, read = q ++ buffer st ∧
         ∀ i u0, resultUnits !! i = Some u0 →
           ∃ added, units st !! i = Some (pushAll added u0) ∧
                    added `sublist_of` q)) as Hinv.
  opose proof* (Hinv _ lines _ st e _ Hrun)
    as (read & rest & Hlines & (Hok & Hnames & q & Hread & Hunits) & H8 & He).
  - clear. intros read st line st' (Hok & Hnames & q & -> & Hunits) Hlen Hline.
    split; [by eapply processLine_activeOk|].
    split; [by rewrite (processLine_names _ _ _ _ Hline)|].
    destruct (line_kinds _ Hlen) as [[_ [o Ho]]|[Hc|Hv]].
    + rewrite (processLine_ownership _ _ _ o) in Hline by done.
      inversion Hline; subst; cbn. exists q. by rewrite <- app_assoc.
    + rewrite processLine_continuation in Hline by done.
      inversion Hline; subst; cbn. exists q. by rewrite <- app_assoc.
    + rewrite processLine_newVoucher in Hline by done.
      inversion Hline; subst; cbn. exists (q ++ buffer st). split; [done|].
      intros i u0 Hu0. destruct (Hunits i u0 Hu0) as (added & Hadd & Hsub).
      rewrite lookup_flush by (apply flushTargets_NoDup, Hok). rewrite Hadd.
      case_decide; cbn.
      * exists (added ++ buffer st). rewrite pushAll_app. split; [done|].
        by apply sublist_app.
      * exists added. split; [done|]. by apply sublist_inserts_r.
  - cbn. split; [apply activeOk_nil|]. split; [done|]. exists []. split; [done|].
    intros i u0 Hu0. exists []. rewrite pushAll_nil. split; [done|].
    apply sublist_nil_l.
  - exists read, rest. split_and!; [done..|].
    intros i u0 Hu0. destruct (Hunits i u0 Hu0) as (added & Hadd & Hsub).
    exists added. split; [done|]. rewrite Hread. by apply sublist_inserts_r.
Qed.

(** C10: the rows of every unit's buffer after partitioning are in the
    order of the input: what the unit held before is still there, in
    front, and what was added is a subsequence of the input lines. *)
Theorem C10_buffers_keep_input_order resultUnits d lines final e :
  splitFileByResult resultUnits d lines = (final, e) →
  length final = length resultUnits ∧
  (∀ i u0, resultUnits !! i = Some u0 →
     ∃ added, final !! i = Some (pushAll added u0) ∧
              added `sublist_of` lines) ∧
  (Forall (λ u, Buffer u = []) resultUnits →
   ∀ u, u ∈ final → Buffer u `sublist_of` lines).
Proof.
  unfold splitFileByResult.
  destruct (splitLoop d (initState resultUnits) lines) as [st e'] eqn:Hrun.
  intros [= <- <-].
  destruct (splitLoop_buffers _ _ _ _ _ Hrun)
    as (read & rest & -> & _ & _ & Hnames & Hunits).
  assert (length (units st) = length resultUnits) as Hlen.
  { by rewrite <- (length_fmap Name (units st)), Hnames, length_fmap. }
  assert (∀ i u0, resultUnits !! i = Some u0 →
     ∃ added, units st !! i = Some (pushAll added u0) ∧
              added `sublist_of` read ++ rest) as Hall.
  { intros i u0 Hu0. destruct (Hunits i u0 Hu0) as (added & Hadd & Hsub).
    exists added. split; [done|]. by apply sublist_inserts_r. }
  split; [done|]. split; [done|].
  intros Hempty u (i & Hi)%list_elem_of_lookup.
  destruct (resultUnits !! i) as [u0|] eqn:Hu0.
  - destruct (Hall i u0 Hu0) as (added & Hadd & Hsub).
    rewrite Hadd in Hi. inversion Hi; subst u. cbn.
    rewrite Forall_forall in Hempty.
    rewrite (Hempty u0) by (apply list_elem_of_lookup; eauto). done.
  - apply lookup_ge_None in Hu0. apply lookup_lt_Some in Hi. lia.
Qed.

Lemma C10_buffers_keep_input_order_witness :
  Buffer (mkResultUnit "VB" [header; debitVB])
    `sublist_of` [header; debitVB; voucher2; debitZtyret].
Proof.
  destruct (C10_buffers_keep_input_order sampleUnits 1
              [header; debitVB; voucher2; debitZtyret]
              [mkResultUnit "VB" [header; debitVB]; mkResultUnit "Ztyret" []]
              None) as (_ & _ & Horder).
  - reflexivity.
  - apply Horder; [repeat constructor|left].
Defined.

(** ** Unit discovery *)

Lemma collectOwners_spec lines (ownerMap ownerMap' : gmap string bool) :
  collectOwners lines ownerMap = Ok ownerMap' →
  ∀ o, is_Some (ownerMap' !! o) ↔
       is_Some (ownerMap !! o) ∨ ∃ line, line ∈ lines ∧ ownerOf line = Some o.
Proof.
  revert ownerMap. induction lines as [|line lines IH]; intros ownerMap Hrun o.
  - cbn in Hrun. inversion Hrun; subst. split; [by left|].
    intros [?|(l & []%elem_of_nil & _)]. done.
  - cbn in Hrun. unfold field in Hrun.
    destruct (line !! 5) as [owner|] eqn:Hl; [cbn in Hrun|done].
    assert (∀ m, collectOwners lines m = Ok ownerMap' → ownerOf line = None →
              is_Some (ownerMap' !! o) ↔
              is_Some (m !! o) ∨ ∃ l, l ∈ line :: lines ∧ ownerOf l = Some o)
      as Hskip.
    { intros m Hm Hno. rewrite (IH _ Hm). split.
      - intros [?|(l & Hin & Hown)]; [by left|]. right. exists l. split; [by right|done].
      - intros [?|(l & [->|Hin]%elem_of_cons & Hown)]; [by left|congruence|].
        right. by exists l. }
    case_bool_decide as Hq.
    { apply Hskip; [done|]. apply strings_Index_quote in Hq.
      unfold ownerOf. rewrite Hl, Hq. by rewrite andb_false_r. }
    case_bool_decide as He.
    { apply Hskip; [done|]. subst owner. unfold ownerOf. by rewrite Hl. }
    assert (ownerOf line = Some owner) as Hown.
    { apply ownerOf_Some. split_and!; [done..|].
      destruct (strings_HasPrefix owner quote) eqn:Hp; [|done].
      by apply strings_Index_quote in Hp. }
    rewrite (IH _ Hrun). rewrite lookup_insert_is_Some. split.
    + intros [[<-|[_ ?]]|(l & Hin & Hl')].
      * right. exists line. split; [left|done].
      * by left.
      * right. exists l. split; [by right|done].
    + intros [?|(l & [->|Hin]%elem_of_cons & Hl')].
      * destruct (decide (owner = o)); [by left; left|by left; right].
      * left; left. congruence.
      * right. by exists l.
Qed.

Lemma collectOwners_Err lines (ownerMap : gmap string bool) e :
  collectOwners lines ownerMap = Err e →
  e = PanicIndexOutOfRange ∧ ∃ line, line ∈ lines ∧ length line ≤ 5.
Proof.
  revert ownerMap. induction lines as [|line lines IH]; intros ownerMap Hrun;
    [done|].
  cbn in Hrun. unfold field in Hrun.
  destruct (line !! 5) as [owner|] eqn:Hl; cbn in Hrun.
  - assert (∃ m, collectOwners lines m = Err e) as (m & Hm).
    { repeat case_bool_decide; eauto. }
    destruct (IH _ Hm) as (-> & l & Hin & Hlen). split; [done|].
    exists l. split; [by right|done].
  - inversion Hrun; subst. split; [done|]. exists line. split; [left|].
    by apply lookup_ge_None in Hl.
Qed.

Lemma elem_of_keys (m : gmap string bool) (o : string) :
  o ∈ (map_to_list m).*1 ↔ is_Some (m !! o).
Proof.
  rewrite list_elem_of_fmap. split.
  - intros ([k v] & -> & Hin). apply elem_of_map_to_list in Hin. by exists v.
  - intros [v Hv]. exists (o, v). split; [done|]. by apply elem_of_map_to_list.
Qed.

(** [findResultUnits] creates one unit, with an empty buffer, for each
    distinct value of column 5 that is neither empty nor quoted. *)
Lemma findResultUnits_spec lines resultUnits :
  findResultUnits lines = Ok resultUnits →
  NoDup (Name <$> resultUnits) ∧
  Forall (λ u, Buffer u = []) resultUnits ∧
  ∀ o, o ∈ Name <$> resultUnits ↔
       ∃ line, line ∈ lines ∧ ownerOf line = Some o.
Proof.
  unfold findResultUnits.
  destruct (collectOwners lines ∅) as [ownerMap|e] eqn:Hrun; [cbn|done].
  intros [= <-].
  assert (Name <$> ((λ o, mkResultUnit o []) <$> (map_to_list ownerMap).*1)
          = (map_to_list ownerMap).*1) as Hnames.
  { rewrite <- list_fmap_compose. apply list_fmap_id. }
  rewrite Hnames. split_and!.
  - apply NoDup_fst_map_to_list.
  - apply Forall_fmap, Forall_true. done.
  - intros o. rewrite elem_of_keys.
    rewrite (collectOwners_spec _ _ _ Hrun o). rewrite lookup_empty. split.
    + intros [[? [=]]|?]. done.
    + by right.
Qed.

Lemma findResultUnits_Err lines e :
  findResultUnits lines = Err e →
  e = PanicIndexOutOfRange ∧ ∃ line, line ∈ lines ∧ length line ≤ 5.
Proof.
  unfold findResultUnits.
  destruct (collectOwners lines ∅) as [ownerMap|e'] eqn:Hrun; [done|].
  cbn. intros [= <-]. by eapply collectOwners_Err.
Qed.

Lemma elem_of_activate_1 us owner cur i :
  i ∈ activate us owner cur →
  i ∈ cur ∨ ∃ u, us !! i = Some u ∧ Name u = owner.
Proof.
  unfold activate. destruct (existsb (nameIs us owner) cur); [by left|].
  rewrite appendNamed_app, elem_of_app, elem_of_appendNamed_nil.
  rewrite Nat.sub_0_r. intros [?|(_ & ?)]; [by left|by right].
Qed.

(** The active units all carry a name that is neither empty nor quoted. *)
Lemma reachable_active_names resultUnits d st i :
  reachable resultUnits d st → i ∈ currentResultUnits st →
  ∃ u, units st !! i = Some u ∧ Name u ≠ "" ∧
       strings_HasPrefix (Name u) quote = false.
Proof.
  intros (lines & Hrun). revert i.
  pose proof (splitLoop_invariant d
    (λ _ st, ∀ i, i ∈ currentResultUnits st →
       ∃ u, units st !! i = Some u ∧ Name u ≠ "" ∧
            strings_HasPrefix (Name u) quote = false)) as Hinv.
  opose proof* (Hinv _ lines _ st None _ Hrun)
    as (_ & _ & _ & H & _); [| |done].
  - clear. intros _ st line st' Hcur Hlen Hline.
    destruct (line_kinds _ Hlen) as [[_ [o Ho]]|[Hc|Hv]].
    + rewrite (processLine_ownership _ _ _ o) in Hline by done.
      inversion Hline; subst; cbn.
      intros i [Hi|(u & Hu & <-)]%elem_of_activate_1; [by apply Hcur|].
      apply ownerOf_Some in Ho as (_ & ? & ?). by exists u.
    + rewrite processLine_continuation in Hline by done.
      by inversion Hline; subst; cbn.
    + rewrite processLine_newVoucher in Hline by done.
      inversion Hline; subst; cbn. by intros i ?%elem_of_nil.
  - cbn. by intros i ?%elem_of_nil.
Qed.

(** C5: a value of field 5 that is empty or begins with a quote never
    names a discovered unit, a row carrying it adds nothing to the
    active units, and no active unit ever carries it. *)
Theorem C5_quoted_owner_never_a_unit (owner : string) :
  owner = "" ∨ strings_HasPrefix owner quote = true →
  (∀ lines resultUnits u,
     findResultUnits lines = Ok resultUnits → u ∈ resultUnits →
     Name u ≠ owner) ∧
  (∀ d st line st',
     line !! 5 = Some owner → processLine d st line = Ok st' →
     currentResultUnits st' = currentResultUnits st ∨
     currentResultUnits st' = []) ∧
  (∀ resultUnits d st i u,
     reachable resultUnits d st → i ∈ currentResultUnits st →
     units st !! i = Some u → Name u ≠ owner).
Proof.
  intros Howner. split_and!.
  - intros lines resultUnits u Hfind Hu Hname.
    destruct (findResultUnits_spec _ _ Hfind) as (_ & _ & Hnames).
    assert (Name u ∈ Name <$> resultUnits) as Hin by (by apply list_elem_of_fmap_2).
    apply Hnames in Hin as (line & _ & (_ & Hne & Hq)%ownerOf_Some).
    rewrite Hname in Hne, Hq. destruct Howner; congruence.
  - intros d st line st' Hl Hline.
    assert (length line = 8) as Hlen.
    { destruct (decide (length line = 8)); [done|].
      by rewrite processLine_bad in Hline. }
    assert (unowned line) as Hun by (by exists owner).
    destruct (line_kinds _ Hlen) as [[_ [o Ho]]|[Hc|Hv]].
    + by rewrite (ownerOf_None_unowned _ Hun) in Ho.
    + rewrite processLine_continuation in Hline by done.
      inversion Hline; subst; cbn. by left.
    + rewrite processLine_newVoucher in Hline by done.
      inversion Hline; subst; cbn. by right.
  - intros resultUnits d st i u Hreach Hi Hu Hname.
    destruct (reachable_active_names _ _ _ _ Hreach Hi) as (u' & Hu' & Hne & Hq).
    rewrite Hu in Hu'. inversion Hu'; subst u'.
    rewrite Hname in Hne, Hq. destruct Howner; congruence.
Qed.

Lemma C5_quoted_owner_never_a_unit_witness :
  currentResultUnits (mkState sampleUnits [header; debitVB; quotedLine] [0])
    = currentResultUnits (mkState sampleUnits [header; debitVB] [0]) ∨
  currentResultUnits (mkState sampleUnits [header; debitVB; quotedLine] [0])
    = [].
Proof.
  destruct (C5_quoted_owner_never_a_unit quotedOwner) as (_ & Hengine & _).
  - right. reflexivity.
  - apply (Hengine 1 (mkState sampleUnits [header; debitVB] [0]) quotedLine
             (mkState sampleUnits [header; debitVB; quotedLine] [0])).
    + reflexivity.
    + reflexivity.
Defined.

(** ** The run *)

(** The loop reads all the lines when they all have 8 fields. *)
Lemma splitLoop_total d st lines :
  Forall (λ l, length l = 8) lines →
  ∃ st', splitLoop d st lines = (st', None).
Proof.
  intros H8. revert st. induction H8 as [|line lines Hlen _ IH]; intros st; cbn.
  - by exists st.
  - destruct (processLine d st line) as [st1|e] eqn:Hline; [apply IH|].
    apply processLine_Err in Hline as [_ ?]. done.
Qed.

(** It stops in front of the first line that does not. *)
Lemma splitLoop_bad d st lines :
  Exists (λ l, length l ≠ 8) lines →
  ∃ read bad rest st',
    lines = read ++ bad :: rest ∧ Forall (λ l, length l = 8) read ∧
    length bad ≠ 8 ∧ splitLoop d st read = (st', None) ∧
    splitLoop d st lines = (st', Some FatalInvalidCSV).
Proof.
  intros Hbad. revert st. induction lines as [|line lines IH]; intros st.
  - by apply Exists_nil in Hbad.
  - destruct (decide (length line = 8)) as [Hlen|Hlen].
    + apply Exists_cons in Hbad as [?|Hbad]; [done|].
      destruct (splitLoop_total d st [line]) as (st1 & Hst1);
        [by repeat constructor|].
      cbn in Hst1. destruct (processLine d st line) as [st1'|] eqn:Hline;
        [|done]. inversion Hst1; subst st1'.
      destruct (IH Hbad st1) as (read & bad & rest & st' & -> & H8 & Hb & Hr & Hrun).
      exists (line :: read), bad, rest, st'. cbn. rewrite Hline.
      split_and!; [done|by constructor|done..].
    + exists [], line, lines, st. cbn. rewrite processLine_bad by done.
      split_and!; [done|constructor|done..].
Qed.

(** C6: when no discovered unit carries the configured default name,
    the run stops after unit discovery with the panic of [main]: no
    line has been partitioned, every unit buffer is empty and the world
    is as it was. *)
Theorem C6_missing_default_unit_aborts io dump outDir lines w resultUnits :
  findResultUnits lines = Ok resultUnits →
  (∀ u, u ∈ resultUnits → Name u ≠ defaultResultUnitName) →
  let e := main io dump outDir lines w in
  status e = Some PanicNoDefaultUnit ∧ world e = w ∧
  memory e = resultUnits ∧ Forall (λ u, Buffer u = []) (memory e).
Proof.
  intros Hfind Hnone. cbn zeta. unfold main. rewrite Hfind.
  assert (findDefault defaultResultUnitName resultUnits = None) as ->.
  { unfold findDefault.
    destruct (list_find _ resultUnits) as [[i u]|] eqn:Hf; [|done].
    apply list_find_Some in Hf as (Hi & Hname & _).
    destruct (Hnone u); [|done]. apply list_elem_of_lookup. eauto. }
  cbn. split_and!; [done..|].
  by destruct (findResultUnits_spec _ _ Hfind) as (_ & ? & _).
Qed.

Lemma C6_missing_default_unit_aborts_witness :
  status (main ioNeverFails dumpCSV "out" [header; debitVB; voucher2] emptyWorld)
    = Some PanicNoDefaultUnit.
Proof.
  destruct (C6_missing_default_unit_aborts ioNeverFails dumpCSV "out"
              [header; debitVB; voucher2] emptyWorld [mkResultUnit "VB" []])
    as (Hstatus & _).
  - vm_compute. reflexivity.
  - intros u Hu. apply list_elem_of_singleton in Hu. subst u. discriminate.
  - exact Hstatus.
Defined.

(** Lines of different lengths, which [splitFileByResult] accepts as an
    argument: the lines in front of the bad one are partitioned before
    the loop stops. *)
Example splitFileByResult_stops_midway :
  splitFileByResult sampleUnits 1 [header; debitVB; voucher2; shortLine] =
    ([mkResultUnit "VB" [header; debitVB]; mkResultUnit "Ztyret" []],
     Some FatalInvalidCSV).
Proof. reflexivity. Qed.

(** A row that does not have exactly 8 fields stops the run before
    [writeFile], with one abort or another: the world is as it was.
    When unit discovery returns and finds the default unit, the abort
    is the invalid-CSV error of the loop; when all rows have the same
    number of fields, every unit buffer is empty at that moment. *)
Lemma bad_row_never_reaches_output io dump outDir lines w :
  Exists (λ l, length l ≠ 8) lines →
  let e := main io dump outDir lines w in
  (status e = Some FatalInvalidCSV ∨ status e = Some PanicIndexOutOfRange ∨
   status e = Some PanicNoDefaultUnit) ∧
  world e = w ∧
  (∀ resultUnits d,
     findResultUnits lines = Ok resultUnits →
     findDefault defaultResultUnitName resultUnits = Some d →
     status e = Some FatalInvalidCSV ∧
     ∃ read bad rest,
       lines = read ++ bad :: rest ∧ Forall (λ l, length l = 8) read ∧
       length bad ≠ 8 ∧
       splitFileByResult resultUnits d read = (memory e, None)) ∧
  ((∀ l1 l2, l1 ∈ lines → l2 ∈ lines → length l1 = length l2) →
   Forall (λ u, Buffer u = []) (memory e)).
Proof.
  intros Hbad. cbn zeta. unfold main.
  destruct (findResultUnits lines) as [resultUnits|a] eqn:Hfind.
  - destruct (findResultUnits_spec _ _ Hfind) as (_ & Hempty & _).
    destruct (findDefault defaultResultUnitName resultUnits) as [d|] eqn:Hd.
    + destruct (splitLoop_bad d (initState resultUnits) lines Hbad)
        as (read & bad & rest & st' & Hlines & H8 & Hb & Hread & Hrun).
      unfold splitFileByResult. rewrite Hrun. cbn.
      split_and!; [by left|done| |].
      * intros ? d0 [= <-] Hd0. rewrite Hd in Hd0. inversion Hd0; subst d0.
        split; [done|].
        exists read, bad, rest. rewrite Hread. done.
      * intros Hsame. destruct read as [|l read].
        -- cbn in Hread. by inversion Hread; subst.
        -- exfalso. apply Hb. rewrite <- (Forall_inv H8).
           apply Hsame; rewrite Hlines; [|left].
           apply elem_of_app. right. left.
    + cbn. split_and!; [by right; right|done| |done].
      intros ? d0 [= <-] Hd0. congruence.
  - apply findResultUnits_Err in Hfind as (-> & _). cbn.
    split_and!; [by right; left|done|intros ? ? [=]|constructor].
Qed.

(** A row of fewer than 6 fields stops the run in unit discovery, at
    the index expression [line[5]], before the check of the 8 fields is
    reached. *)
Lemma short_row_panics_in_discovery io dump outDir (lines : list Line) w :
  Exists (λ l : Line, length l ≤ 5) lines →
  main io dump outDir lines w = mkExit (Some PanicIndexOutOfRange) [] w.
Proof.
  intros Hshort. unfold main, findResultUnits.
  assert (∀ m, collectOwners lines m = Err PanicIndexOutOfRange) as ->; [|done].
  induction Hshort as [line lines Hlen|line lines _ IH]; intros m; cbn;
    unfold field.
  - destruct (line !! 5) as [owner|] eqn:Hl; [|done].
    apply lookup_lt_Some in Hl. lia.
  - destruct (line !! 5) as [owner|]; [cbn|done].
    repeat case_bool_decide; apply IH.
Qed.

(** C2, at a list whose only row has 5 fields: unit discovery indexes
    field 5 before the check of the 8 fields is reached, so the run
    ends with an index panic and not with the invalid-CSV error the
    check announces; at a list of one row of 7 fields that names no
    default unit it ends with the panic for the missing default unit.
    Nothing is written in either run. *)
Theorem C2_short_row_panics_before_the_check :
  (let e := main ioNeverFails dumpCSV "out" [fiveFields] emptyWorld in
   status e = Some PanicIndexOutOfRange ∧ world e = emptyWorld ∧
   memory e = []) ∧
  ¬ abortsWithInputFormatError ioNeverFails dumpCSV "out" [fiveFields]
      emptyWorld ∧
  (let e := main ioNeverFails dumpCSV "out" [shortLine] emptyWorld in
   status e = Some PanicNoDefaultUnit ∧ world e = emptyWorld).
Proof.
  split_and!.
  - vm_compute. by split_and!.
  - intros (Hstatus & _). vm_compute in Hstatus. discriminate Hstatus.
  - vm_compute. by split_and!.
Qed.

(** ** Delimited-text export and re-reading *)

Lemma string_app_assoc (s1 s2 s3 : string) :
  (s1 +:+ s2) +:+ s3 = s1 +:+ (s2 +:+ s3).
Proof.
  induction s1 as [|c s1 IH]; [done|].
  change (String c ((s1 +:+ s2) +:+ s3) = String c (s1 +:+ s2 +:+ s3)).
  by f_equal.
Qed.

Lemma string_app_cons (a : ascii) (s1 s2 : string) :
  String a s1 +:+ s2 = String a (s1 +:+ s2).
Proof. done. Qed.

Lemma string_app_nil_l (s : string) : EmptyString +:+ s = s.
Proof. done. Qed.

Lemma string_app_nil_r (s : string) : s +:+ EmptyString = s.
Proof.
  induction s as [|c s IH]; [done|]. rewrite string_app_cons. by f_equal.
Qed.

Lemma contains_String c a s : contains c (String a s) ↔ a = c ∨ contains c s.
Proof.
  unfold contains. cbn. rewrite elem_of_cons. split; intros [?|?]; eauto.
Qed.

Lemma contains_empty c : ¬ contains c EmptyString.
Proof. unfold contains. cbn. by intros ?%elem_of_nil. Qed.

Lemma contains_app c s1 s2 :
  contains c (s1 +:+ s2) ↔ contains c s1 ∨ contains c s2.
Proof.
  induction s1 as [|a s1 IH].
  - rewrite string_app_nil_l. split; [by right|].
    intros [?%contains_empty|?]; done.
  - rewrite string_app_cons, !contains_String, IH. tauto.
Qed.

Lemma splitOn_plain sep s : ¬ contains sep s → splitOn sep s = [s].
Proof.
  induction s as [|a s IH]; intros Hs; cbn; [done|].
  rewrite contains_String in Hs.
  destruct (Ascii.eqb_spec a sep) as [->|Hne]; [tauto|].
  rewrite IH by tauto. done.
Qed.

Lemma splitOn_app_sep sep s t :
  ¬ contains sep s →
  splitOn sep (s +:+ String sep t) = s :: splitOn sep t.
Proof.
  induction s as [|a s IH]; intros Hs.
  - rewrite string_app_nil_l. cbn. by rewrite Ascii.eqb_refl.
  - rewrite string_app_cons. cbn [splitOn]. rewrite contains_String in Hs.
    destruct (Ascii.eqb_spec a sep) as [->|Hne]; [tauto|].
    rewrite IH by tauto. done.
Qed.

Lemma strings_Join_cons (f g : string) (row : list string) :
  strings_Join (f :: g :: row) ";" =
    f +:+ String semicolon (strings_Join (g :: row) ";").
Proof. done. Qed.

(** Splitting a joined row gives the row back when no field holds the
    separator. *)
Lemma splitOn_Join (row : Line) :
  row ≠ [] → Forall (λ f, ¬ contains semicolon f) row →
  splitOn semicolon (strings_Join row ";") = row.
Proof.
  induction row as [|f row IH]; intros Hne Hrow; [done|].
  apply Forall_cons in Hrow as [Hf Hrow].
  destruct row as [|g row].
  - cbn. by apply splitOn_plain.
  - rewrite strings_Join_cons, splitOn_app_sep by done. by rewrite IH.
Qed.

Lemma contains_Join c (row : Line) :
  c ≠ semicolon → Forall (λ f, ¬ contains c f) row →
  ¬ contains c (strings_Join row ";").
Proof.
  intros Hc.
  induction row as [|f row IH]; intros Hrow; [apply contains_empty|].
  apply Forall_cons in Hrow as [Hf Hrow].
  destruct row as [|g row]; [done|].
  rewrite strings_Join_cons, contains_app, contains_String.
  intros [?|[?|?]]; [done|congruence|by apply IH].
Qed.

Lemma csvText_cons row (buffer : list Line) :
  csvText (row :: buffer) =
    strings_Join row ";" +:+ String newline (csvText buffer).
Proof.
  unfold csvText, dumpCSV. cbn [fst foldl].
  set (f := λ (buff : string) (line : Line),
              buff +:+ strings_Join line ";" +:+ String newline EmptyString).
  assert (∀ buf acc, foldl f acc buf = acc +:+ foldl f EmptyString buf) as Hacc.
  { induction buf as [|l buf IH]; intros acc; cbn [foldl].
    - by rewrite string_app_nil_r.
    - rewrite (IH (f acc l)), (IH (f EmptyString l)). unfold f.
      by rewrite string_app_nil_l, !string_app_assoc. }
  rewrite Hacc. unfold f at 1.
  by rewrite string_app_nil_l, !string_app_assoc, string_app_cons,
    string_app_nil_l.
Qed.

Lemma splitOn_csvText (buffer : list Line) :
  Forall (Forall (λ f, ¬ contains newline f)) buffer →
  splitOn newline (csvText buffer) =
    ((λ row, strings_Join row ";") <$> buffer) ++ [EmptyString].
Proof.
  induction 1 as [|row buffer Hrow _ IH]; [done|].
  rewrite csvText_cons, splitOn_app_sep, IH; [done|].
  by apply contains_Join.
Qed.

(** Re-splitting the text of [dumpCSV] gives the rows back when no row
    is empty and no field holds the separator or a line end. *)
Lemma resplit_dumpCSV (buffer : list Line) :
  Forall (λ row, row ≠ [] ∧ Forall plainField row) buffer →
  resplit (csvText buffer) = buffer.
Proof.
  intros Hbuf. unfold resplit, textLines.
  rewrite splitOn_csvText.
  - rewrite last_snoc, removelast_last. rewrite <- list_fmap_compose.
    rewrite <- (list_fmap_id buffer) at 2. apply Forall_fmap_ext.
    eapply Forall_impl; [exact Hbuf|]. intros row [Hne Hrow]. cbn.
    apply splitOn_Join; [done|].
    eapply Forall_impl; [exact Hrow|]. by intros f [? _].
  - eapply Forall_impl; [exact Hbuf|]. intros row [_ Hrow].
    eapply Forall_impl; [exact Hrow|]. by intros f [_ ?].
Qed.

Lemma sublist_Forall {A} (P : A → Prop) (l k : list A) :
  l `sublist_of` k → Forall P k → Forall P l.
Proof.
  induction 1 as [|x l k _ IH|x l k _ IH]; intros Hk; [done| |].
  - apply Forall_cons in Hk as [? ?]. constructor; [done|by apply IH].
  - apply Forall_cons in Hk as [_ ?]. by apply IH.
Qed.

(** Every row the loop puts into a unit has 8 fields. *)
Lemma splitFileByResult_rows resultUnits d lines final e u :
  Forall (λ u, Buffer u = []) resultUnits →
  splitFileByResult resultUnits d lines = (final, e) → u ∈ final →
  Forall (λ row, length row = 8) (Buffer u).
Proof.
  unfold splitFileByResult.
  destruct (splitLoop d (initState resultUnits) lines) as [st e'] eqn:Hrun.
  intros Hempty [= <- <-] (i & Hi)%list_elem_of_lookup.
  destruct (splitLoop_buffers _ _ _ _ _ Hrun)
    as (read & rest & -> & H8 & _ & Hnames & Hunits).
  destruct (resultUnits !! i) as [u0|] eqn:Hu0.
  - destruct (Hunits i u0 Hu0) as (added & Hadd & Hsub).
    rewrite Hadd in Hi. inversion Hi; subst u. cbn.
    rewrite Forall_forall in Hempty.
    rewrite (Hempty u0) by (apply list_elem_of_lookup; eauto). cbn.
    by eapply sublist_Forall.
  - apply lookup_ge_None in Hu0. apply lookup_lt_Some in Hi.
    assert (length (units st) = length resultUnits)
      by (by rewrite <- (length_fmap Name (units st)), Hnames, length_fmap).
    lia.
Qed.

(** Counterexample to C8 as stated: a buffered field that holds the
    separator comes back as two fields. *)
Lemma C8_counterexample :
  ¬ (∀ u,
       u ∈ memory (main ioNeverFails dumpCSV "out"
                     [header; debitSemicolon; voucher2] emptyWorld) →
       resplit (dumpCSV (Buffer u)).1.1 = Buffer u).
Proof.
  intros H.
  specialize (H (mkResultUnit "Ztyret" [header; debitSemicolon])).
  assert (mkResultUnit "Ztyret" [header; debitSemicolon] ∈
          memory (main ioNeverFails dumpCSV "out"
                    [header; debitSemicolon; voucher2] emptyWorld)) as Hin.
  { vm_compute. left. }
  apply H in Hin. vm_compute in Hin. discriminate Hin.
Qed.

(** C8, amended: for every unit buffer whose fields hold neither the
    separator nor a line end, re-splitting the text of the
    delimited-text export by line ends and by the separator gives the
    buffered rows back, field for field. *)
Theorem C8_csv_round_trip resultUnits d lines final e u :
  Forall (λ u, Buffer u = []) resultUnits →
  splitFileByResult resultUnits d lines = (final, e) → u ∈ final →
  Forall (Forall plainField) (Buffer u) →
  resplit (dumpCSV (Buffer u)).1.1 = Buffer u.
Proof.
  intros Hempty Hrun Hu Hplain.
  pose proof (splitFileByResult_rows _ _ _ _ _ _ Hempty Hrun Hu) as H8.
  apply resplit_dumpCSV. apply Forall_and. split; [|done].
  eapply Forall_impl; [exact H8|]. intros row Hlen ->. done.
Qed.

Lemma C8_csv_round_trip_witness :
  resplit (dumpCSV [header; debitVB]).1.1 = [header; debitVB].
Proof.
  apply (C8_csv_round_trip sampleUnits 1 [header; debitVB; voucher2]
           [mkResultUnit "VB" [header; debitVB]; mkResultUnit "Ztyret" []]
           None (mkResultUnit "VB" [header; debitVB])).
  - repeat constructor.
  - reflexivity.
  - left.
  - repeat constructor; vm_compute;
      intros H; repeat (apply elem_of_cons in H as [H|H]; [discriminate H|]);
      by apply elem_of_nil in H.
Defined.

(** ** Export of the units *)

(** When the write fails, the failure is the last entry of the log; the
    file is as it was when it could not be opened, and holds the bytes
    written before the failure otherwise. *)
Lemma exportUnit_write_fails io resultMap dump exportDir w owner data ext err :
  dump (Buffer owner) = (data, ext, err) →
  writeFails io (outFileOf resultMap exportDir owner ext) = true →
  let w' := exportUnit io resultMap dump exportDir w owner in
  files w' =
    match writtenBeforeFailure io (outFileOf resultMap exportDir owner ext) with
    | None => files w
    | Some n =>
        <[outFileOf resultMap exportDir owner ext := String.substring 0 n data]>
          (files w)
    end ∧
  ∃ entries, logged w' = logged w ++ entries ++ [LogFailed (Name owner) "write"].
Proof.
  intros Hdump Hfail. cbn zeta. unfold exportUnit, outFileOf in *. rewrite Hdump.
  unfold ioutil_WriteFile, os_MkdirAll, logFailure, logf.
  destruct (resultMap !! Name owner) as [targetDir|];
    destruct err as [msg|];
    repeat match goal with
           | |- context [mkdirFails io ?p] => destruct (mkdirFails io p)
           end; cbn; rewrite Hfail;
    match goal with
    | |- context [writtenBeforeFailure io ?p] =>
        destruct (writtenBeforeFailure io p)
    end; cbn; (split; [done|]);
    rewrite <- ?app_assoc;
    first [ by exists [] | by eexists [_] | by eexists [_; _] ].
Qed.

(** When serializing fails and the write succeeds, the unit still
    leaves a file: the failure is logged and the loop body goes on to
    write the data the serializer returned. *)
Lemma exportUnit_dump_fails io resultMap dump exportDir w owner data ext msg :
  dump (Buffer owner) = (data, ext, Some msg) →
  writeFails io (outFileOf resultMap exportDir owner ext) = false →
  let w' := exportUnit io resultMap dump exportDir w owner in
  files w' !! outFileOf resultMap exportDir owner ext = Some data ∧
  LogFailed (Name owner) msg ∈ logged w' ∧
  LogSuccess (Name owner) (outFileOf resultMap exportDir owner ext) ∈ logged w'.
Proof.
  intros Hdump Hok. cbn zeta. unfold exportUnit, outFileOf in *. rewrite Hdump.
  unfold ioutil_WriteFile, os_MkdirAll, logFailure, logf.
  destruct (resultMap !! Name owner) as [targetDir|];
    repeat match goal with
           | |- context [mkdirFails io ?p] => destruct (mkdirFails io p)
           end; cbn; rewrite Hok; cbn;
    (split; [by rewrite lookup_insert_eq|]);
    rewrite !elem_of_app, !list_elem_of_singleton; split; eauto 10.
Qed.

(** The loop body only adds to the log, and adds an entry on its unit. *)
Lemma exportUnit_logs io resultMap dump exportDir w owner :
  ∃ entries e,
    logged (exportUnit io resultMap dump exportDir w owner)
      = logged w ++ entries ∧
    e ∈ entries ∧ reports (Name owner) e.
Proof.
  unfold exportUnit.
  destruct (dump (Buffer owner)) as [[data ext] err].
  unfold ioutil_WriteFile, os_MkdirAll, logFailure, logf.
  destruct (resultMap !! Name owner) as [targetDir|];
    destruct err as [msg|];
    repeat match goal with
           | |- context [mkdirFails io ?p] => destruct (mkdirFails io p)
           end;
    match goal with
    | |- context [writeFails io ?p] =>
        destruct (writeFails io p); [destruct (writtenBeforeFailure io p)|]
    end; cbn; rewrite <- ?app_assoc;
    eexists _, _; (split; [reflexivity|]);
    (split; [pick_last|reflexivity]).
Qed.

(** A failure on one unit does not stop the loop: every unit gets its
    entry in the log. *)
Lemma writeFile_reports_every_unit io resultUnits resultMap dump exportDir w owner :
  mkdirFails io exportDir = false → owner ∈ resultUnits →
  let '(w', e) := writeFile io resultUnits resultMap dump exportDir w in
  e = None ∧ ∃ entry, entry ∈ logged w' ∧ reports (Name owner) entry.
Proof.
  intros Hdir Hin. unfold writeFile, os_MkdirAll. rewrite Hdir.
  split; [done|].
  set (w1 := mkWorld _ _ _). clearbody w1. revert w1.
  assert (∀ us w1 entry, entry ∈ logged w1 →
            entry ∈ logged (foldl (exportUnit io resultMap dump exportDir) w1 us))
    as Hkeep.
  { induction us as [|u us IH]; intros w1 entry He; cbn; [done|].
    apply IH.
    destruct (exportUnit_logs io resultMap dump exportDir w1 u)
      as (entries & _ & -> & _). apply elem_of_app. by left. }
  induction Hin as [owner us|owner u us Hin IH]; intros w1; cbn.
  - destruct (exportUnit_logs io resultMap dump exportDir w1 owner)
      as (entries & e & Hlog & He & Hrep).
    exists e. split; [|done]. apply Hkeep. rewrite Hlog.
    apply elem_of_app. by right.
  - apply IH.
Qed.

(** C9, at a serializer that fails for the unit VB: the failure is
    logged and the unit Ztyret is still exported, but VB is written all
    the same, as an empty file without extension, and logged as a
    success. *)
Theorem C9_failed_unit_still_writes_a_file :
  let '(w, e) :=
    writeFile ioNeverFails
      [mkResultUnit "VB" []; mkResultUnit "Ztyret" [header]]
      resultMap failingDump "out" emptyWorld in
  e = None ∧
  files w !! "out/Ztyret/VB." = Some EmptyString ∧
  files w !! "out/Ztyret/Ztyret.csv" = Some (csvText [header]) ∧
  logged w =
    [ LogFailed "VB" "serialization failed";
      LogSuccess "VB" "out/Ztyret/VB.";
      LogSuccess "Ztyret" "out/Ztyret/Ztyret.csv" ].
Proof. vm_compute. by split_and!. Qed.

(** ** End of input *)

(** The last voucher group stays in the pending buffer: the unit
    buffers at the end of the loop are the ones left by the last
    new-voucher line. *)
Lemma last_group_stays_pending d st lines v rows :
  Forall (λ l, length l = 8) lines →
  isNewVoucherLine v → Forall isGroupLine rows →
  ∃ st1 cur,
    splitLoop d st (lines ++ [v]) = (st1, None) ∧
    splitLoop d st (lines ++ v :: rows) =
      (mkState (units st1) (v :: rows) cur, None).
Proof.
  intros H8 Hv Hrows.
  destruct (splitLoop_total d st lines H8) as (st0 & Hst0).
  rewrite !splitLoop_app, Hst0. cbn [splitLoop].
  rewrite processLine_newVoucher by done.
  eexists _, _. split; [done|].
  by rewrite splitLoop_group by done.
Qed.

(** C1, at the single header row of the specification and at a list of
    one voucher owned by the default unit: the loop ends with the last
    voucher group still pending, the default unit's buffer is empty and
    the exported file holds no row. *)
Theorem C1_last_group_is_dropped :
  splitFileByResult [mkResultUnit "Ztyret" []] 0 [header] =
    ([mkResultUnit "Ztyret" []], None) ∧
  splitLoop 0 (initState [mkResultUnit "Ztyret" []]) [header] =
    (mkState [mkResultUnit "Ztyret" []] [header] [], None) ∧
  (let e := main ioNeverFails dumpCSV "out" [header; debitZtyret] emptyWorld in
   status e = None ∧ memory e = [mkResultUnit "Ztyret" []] ∧
   files (world e) !! "out/Ztyret/Ztyret.csv" = Some EmptyString).
Proof. vm_compute. by split_and!. Qed.

(** * Further properties of the code *)

(** ** Routing of whole inputs *)

Lemma namedBy_touches us rows i : namedBy us rows i = true ↔ touches us rows i.
Proof.
  unfold namedBy, touches. destruct (us !! i) as [u|] eqn:Hu.
  - rewrite existsb_exists. split.
    + intros (row & Hin%list_elem_of_In & Hrow%bool_decide_eq_true).
      by exists row, u.
    + intros (row & u' & Hin & [= <-] & Hrow). exists row.
      split; [by apply list_elem_of_In|]. by apply bool_decide_eq_true.
  - split; [done|]. by intros (row & u & _ & ? & _).
Qed.

Lemma routedTo_target us d rows i :
  routedTo us d rows i = true ↔ target us d rows i.
Proof.
  unfold routedTo, target.
  rewrite orb_true_iff, andb_true_iff, negb_true_iff, bool_decide_eq_true.
  rewrite namedBy_touches.
  assert (existsb (namedBy us rows) (seq 0 (length us)) = false ↔
          ∀ j, ¬ touches us rows j) as ->; [|done].
  rewrite <- not_true_iff_false, existsb_exists. split.
  - intros Hnone j Hj. apply Hnone. exists j. split; [|by apply namedBy_touches].
    apply in_seq. destruct Hj as (row & u & _ & Hu%lookup_lt_Some & _). lia.
  - intros Hnone (j & _ & Hj%namedBy_touches). by apply (Hnone j).
Qed.

Lemma namedBy_names us1 us2 rows i :
  Name <$> us1 = Name <$> us2 → namedBy us1 rows i = namedBy us2 rows i.
Proof.
  intros Hnames. unfold namedBy.
  assert ((Name <$> us1) !! i = (Name <$> us2) !! i) as Hi by (by rewrite Hnames).
  rewrite !list_lookup_fmap in Hi.
  destruct (us1 !! i) as [u1|], (us2 !! i) as [u2|]; try done.
  cbn in Hi. by inversion Hi.
Qed.

Lemma routedTo_names us1 us2 d rows i :
  Name <$> us1 = Name <$> us2 → routedTo us1 d rows i = routedTo us2 d rows i.
Proof.
  intros Hnames. unfold routedTo.
  rewrite (namedBy_names us1 us2) by done.
  assert (length us1 = length us2) as ->.
  { by rewrite <- (length_fmap Name us1), Hnames, length_fmap. }
  do 3 f_equal. induction (seq 0 (length us2)) as [|j l IH]; cbn; [done|].
  by rewrite IH, (namedBy_names us1 us2).
Qed.

Lemma activateAll_app us rows1 rows2 cur :
  activateAll us (rows1 ++ rows2) cur =
    activateAll us rows2 (activateAll us rows1 cur).
Proof.
  revert cur. induction rows1 as [|row rows1 IH]; intros cur; cbn; [done|].
  apply IH.
Qed.

(** The units a flush writes to are the ones the routing rule gives. *)
Lemma flushTargets_routedTo us d rows i :
  i ∈ flushTargets d (activateAll us rows []) ↔ routedTo us d rows i = true.
Proof.
  rewrite routedTo_target.
  destruct (activateAll_spec us rows [] (activeOk_nil us)) as [_ Hin].
  unfold target.
  destruct (activateAll us rows []) as [|k cur] eqn:Hcur; cbn.
  - rewrite list_elem_of_singleton. split.
    + intros ->. right. split; [done|]. intros j Hj.
      assert (j ∈ @nil nat) as []%elem_of_nil. apply Hin. by right.
    + intros [Ht|[-> _]]; [|done].
      assert (i ∈ @nil nat) as []%elem_of_nil. apply Hin. by right.
  - rewrite Hin. split.
    + intros [[]%elem_of_nil|?]. by left.
    + intros [?|[_ Hnone]]; [by right|]. exfalso. apply (Hnone k).
      assert (k ∈ k :: cur) as [[]%elem_of_nil|?]%Hin by left. done.
Qed.

Lemma pendingOk_group d st rows :
  pendingOk st → Forall isGroupLine rows →
  ∃ st', splitLoop d st rows = (st', None) ∧
    units st' = units st ∧ buffer st' = buffer st ++ rows ∧ pendingOk st'.
Proof.
  intros Hpend Hrows. eexists. split; [by apply splitLoop_group|].
  split_and!; [done..|]. unfold pendingOk in *. cbn.
  by rewrite activateAll_app, <- Hpend.
Qed.

(** Reading a voucher group commits the pending rows by the routing
    rule and leaves the group pending. *)
Lemma commit_group d st g :
  pendingOk st → isGroup g →
  ∃ st', splitLoop d st g = (st', None) ∧
    buffer st' = g ∧ pendingOk st' ∧
    Name <$> units st' = Name <$> units st ∧
    ∀ i u, units st !! i = Some u →
      units st' !! i =
        Some (if routedTo (units st) d (buffer st) i
              then pushAll (buffer st) u else u).
Proof.
  intros Hpend (v & rows & -> & Hv & Hrows).
  cbn [splitLoop]. rewrite processLine_newVoucher by done.
  set (us1 := flush (units st) _ (buffer st)).
  destruct (pendingOk_group d (mkState us1 [v] []) rows) as (st' & -> & Hus & Hbuf & Hpend');
    [|done|].
  { unfold pendingOk. cbn. destruct Hv as (_ & Hun & _).
    by rewrite (ownerOf_None_unowned _ Hun). }
  exists st'. split; [done|]. split; [done|]. split; [done|].
  rewrite Hus. cbn [units]. split; [apply flush_names|].
  intros i u Hu. unfold us1. rewrite Hpend.
  destruct (activateAll_spec (units st) (buffer st) [] (activeOk_nil _)) as [Hok _].
  rewrite lookup_flush by (apply flushTargets_NoDup, Hok). rewrite Hu. cbn.
  destruct (routedTo (units st) d (buffer st) i) eqn:Hr.
  - by rewrite decide_True by (by apply flushTargets_routedTo).
  - rewrite decide_False; [done|]. intros ?%flushTargets_routedTo. congruence.
Qed.

Lemma delivered_cons us d g chunks i :
  delivered us d (g :: chunks) i =
    (if routedTo us d g i then g else []) ++ delivered us d chunks i.
Proof.
  unfold delivered. rewrite filter_cons.
  destruct (routedTo us d g i); [by rewrite decide_True|].
  by rewrite decide_False.
Qed.

(** Reading groups one after the other: every unit receives, in order,
    the chunks routed to it, and the last group stays pending. *)
Lemma splitLoop_groups d gs : ∀ st last,
  pendingOk st → Forall isGroup gs → isGroup last →
  ∃ st', splitLoop d st (concat gs ++ last) = (st', None) ∧
    buffer st' = last ∧
    ∀ i u, units st !! i = Some u →
      units st' !! i =
        Some (pushAll (delivered (units st) d (buffer st :: gs) i) u).
Proof.
  induction gs as [|g gs IH]; intros st last Hpend Hgs Hlast.
  - destruct (commit_group d st last Hpend Hlast)
      as (st' & Hrun & Hbuf & _ & _ & Hunits).
    exists st'. split; [done|]. split; [done|]. intros i u Hu.
    rewrite (Hunits i u Hu), delivered_cons. unfold delivered. cbn.
    rewrite app_nil_r. destruct (routedTo _ _ _ _); [done|].
    by rewrite pushAll_nil.
  - apply Forall_cons in Hgs as [Hg Hgs].
    destruct (commit_group d st g Hpend Hg)
      as (st1 & Hrun1 & Hbuf1 & Hpend1 & Hnames1 & Hunits1).
    destruct (IH st1 last Hpend1 Hgs Hlast) as (st' & Hrun & Hbuf & Hunits).
    exists st'. split.
    { cbn [concat]. rewrite <- app_assoc, splitLoop_app, Hrun1. done. }
    split; [done|]. intros i u Hu.
    rewrite (Hunits i _ (Hunits1 i u Hu)), Hbuf1.
    rewrite (delivered_cons _ _ (buffer st)).
    assert (delivered (units st1) d (g :: gs) i
            = delivered (units st) d (g :: gs) i) as ->.
    { unfold delivered. f_equal. apply list_filter_iff. intros c.
      by rewrite (routedTo_names (units st1) (units st)). }
    destruct (routedTo (units st) d (buffer st) i).
    + by rewrite pushAll_app.
    + done.
Qed.

Lemma splitLoop_chunks d resultUnits pre gs last :
  Forall isGroupLine pre → Forall isGroup gs → isGroup last →
  ∃ st, splitLoop d (initState resultUnits) (pre ++ concat gs ++ last)
          = (st, None) ∧
    buffer st = last ∧
    ∀ i u, resultUnits !! i = Some u →
      units st !! i = Some (pushAll (delivered resultUnits d (pre :: gs) i) u).
Proof.
  intros Hpre Hgs Hlast.
  destruct (pendingOk_group d (initState resultUnits) pre)
    as (st0 & Hrun0 & Hus0 & Hbuf0 & Hpend0); [done..|].
  destruct (splitLoop_groups d gs st0 last Hpend0 Hgs Hlast)
    as (st & Hrun & Hbuf & Hunits).
  exists st. split; [by rewrite splitLoop_app, Hrun0|]. split; [done|].
  intros i u Hu. rewrite Hus0, Hbuf0 in Hunits. by apply Hunits.
Qed.

(** Every list of lines of 8 fields is made of group lines only, or of
    leading group lines, voucher groups and a last voucher group. *)
Lemma lines_chunks (lines : list Line) :
  Forall (λ l, length l = 8) lines →
  Forall isGroupLine lines ∨
  ∃ pre gs last,
    lines = pre ++ concat gs ++ last ∧
    Forall isGroupLine pre ∧ Forall isGroup gs ∧ isGroup last.
Proof.
  induction lines as [|l lines IH] using rev_ind; intros H8; [by left|].
  apply Forall_app in H8 as [H8 Hl%Forall_inv].
  assert (isGroupLine l ∨ isNewVoucherLine l) as [Hg|Hv].
  { destruct (line_kinds _ Hl) as [?|[?|?]]; [left; by left|left; by right|by right]. }
  - destruct (IH H8) as [Hall|(pre & gs & last & -> & Hpre & Hgs & Hlast)].
    + left. apply Forall_app. split; [done|by constructor].
    + right. exists pre, gs, (last ++ [l]). rewrite <- !app_assoc.
      split_and!; [done..|].
      destruct Hlast as (v & rows & -> & Hv & Hrows). exists v, (rows ++ [l]).
      split_and!; [done..|]. apply Forall_app. split; [done|by constructor].
  - assert (isGroup [l]) as Hlast by (by exists l, []).
    destruct (IH H8) as [Hall|(pre & gs & last & -> & Hpre & Hgs & Hlast')].
    + right. exists lines, [], [l]. done.
    + right. exists pre, (gs ++ [last]), [l].
      rewrite concat_app. cbn. rewrite app_nil_r, <- !app_assoc.
      split_and!; [done..| |done]. apply Forall_app. split; [done|by constructor].
Qed.

(** X1: an input made of leading group lines, completed voucher groups
    and a last voucher group is read to its end, and every unit then
    holds what it held before followed by the chunks routed to it (the
    ones naming it, or naming no unit when it is the default unit), whole
    and in the order of the input; the last group is in no unit. *)
Theorem partition_by_groups d resultUnits pre gs last :
  Forall isGroupLine pre → Forall isGroup gs → isGroup last →
  ∃ final,
    splitFileByResult resultUnits d (pre ++ concat gs ++ last) = (final, None) ∧
    length final = length resultUnits ∧
    ∀ i u, resultUnits !! i = Some u →
      final !! i = Some (pushAll (delivered resultUnits d (pre :: gs) i) u).
Proof.
  intros Hpre Hgs Hlast.
  destruct (splitLoop_chunks d resultUnits pre gs last Hpre Hgs Hlast)
    as (st & Hrun & _ & Hunits).
  exists (units st). unfold splitFileByResult. rewrite Hrun.
  split; [done|]. split; [|done].
  destruct (splitLoop_buffers _ _ _ _ _ Hrun) as (_ & _ & _ & _ & _ & Hnames & _).
  by rewrite <- (length_fmap Name (units st)), Hnames, length_fmap.
Qed.

Lemma partition_by_groups_witness :
  ∃ final,
    splitFileByResult sampleUnits 1
      ([] ++ concat [[header; debitVB]; [voucher2; detail]] ++ [voucher3])
      = (final, None) ∧
    final !! 0 = Some (mkResultUnit "VB" [header; debitVB]) ∧
    final !! 1 = Some (mkResultUnit "Ztyret" [voucher2; detail]).
Proof.
  destruct (partition_by_groups 1 sampleUnits []
              [[header; debitVB]; [voucher2; detail]] [voucher3])
    as (final & Hrun & _ & Hunits).
  - constructor.
  - repeat constructor.
    + exists header, [debitVB]. split; [reflexivity|]. split; solve_line.
    + exists voucher2, [detail]. split; [reflexivity|]. split; solve_line.
  - exists voucher3, []. split; [reflexivity|]. split; solve_line.
  - exists final. split; [exact Hrun|]. split.
    + apply (Hunits 0 (mkResultUnit "VB" [])). reflexivity.
    + apply (Hunits 1 (mkResultUnit "Ztyret" [])). reflexivity.
Defined.

(** X2: an input without a new-voucher line (the empty input, or group
    lines only) is read to its end and changes no unit: nothing is ever
    flushed. *)
Theorem nothing_flushed_without_voucher d resultUnits lines :
  Forall isGroupLine lines →
  splitFileByResult resultUnits d lines = (resultUnits, None).
Proof.
  intros Hlines. unfold splitFileByResult.
  by rewrite splitLoop_group by done.
Qed.

Lemma nothing_flushed_without_voucher_witness :
  splitFileByResult sampleUnits 1 [debitVB; detail; debitZtyret]
    = (sampleUnits, None).
Proof.
  apply (nothing_flushed_without_voucher 1 sampleUnits
           [debitVB; detail; debitZtyret]).
  solve_line.
Defined.

(** X3: when the default unit is one of the units, every row read
    before the last new-voucher line is in the buffer of at least one
    unit at the end of the loop. *)
Theorem no_completed_row_lost d resultUnits (front : list Line) (v : Line)
    (rows : list Line) (row : Line) :
  d < length resultUnits →
  Forall (λ l, length l = 8) front → isNewVoucherLine v →
  Forall isGroupLine rows → row ∈ front →
  ∃ final u,
    splitFileByResult resultUnits d (front ++ v :: rows) = (final, None) ∧
    u ∈ final ∧ row ∈ Buffer u.
Proof.
  intros Hd H8 Hv Hrows Hrow.
  assert (isGroup (v :: rows)) as Hlast by (by exists v, rows).
  assert (∃ pre gs, front = pre ++ concat gs ∧
            Forall isGroupLine pre ∧ Forall isGroup gs) as
    (pre & gs & -> & Hpre & Hgs).
  { destruct (lines_chunks front H8) as [Hall|(pre & gs & last & -> & ? & ? & ?)].
    - exists front, []. cbn. by rewrite app_nil_r.
    - exists pre, (gs ++ [last]). rewrite concat_app. cbn. rewrite app_nil_r.
      split_and!; [done..|]. apply Forall_app. split; [done|by constructor]. }
  destruct (splitLoop_chunks d resultUnits pre gs (v :: rows) Hpre Hgs Hlast)
    as (st & Hrun & _ & Hunits).
  assert (splitFileByResult resultUnits d ((pre ++ concat gs) ++ v :: rows)
          = (units st, None)) as Hsplit.
  { unfold splitFileByResult. by rewrite <- app_assoc, Hrun. }
  assert (∃ c, c ∈ pre :: gs ∧ row ∈ c) as (c & Hc & Hrc).
  { apply elem_of_app in Hrow as [?|Hin]; [exists pre; split; [left|done]|].
    apply list_elem_of_In, in_concat in Hin as (c & Hc & Hin).
    exists c. split; [right; by apply list_elem_of_In|by apply list_elem_of_In]. }
  assert (∃ i, i < length resultUnits ∧ routedTo resultUnits d c i = true)
    as (i & Hi & Hroute).
  { unfold routedTo.
    destruct (existsb (namedBy resultUnits c) (seq 0 (length resultUnits)))
      eqn:Hex.
    - apply existsb_exists in Hex as (j & Hj%in_seq & Hnamed).
      exists j. split; [lia|]. by rewrite Hnamed.
    - exists d. split; [done|]. rewrite bool_decide_eq_true_2 by done.
      by rewrite orb_true_r. }
  destruct (lookup_lt_is_Some_2 _ _ Hi) as [u0 Hu0].
  exists (units st), (pushAll (delivered resultUnits d (pre :: gs) i) u0).
  split; [done|]. split.
  - apply list_elem_of_lookup. exists i. by apply Hunits.
  - unfold pushAll. cbn [Buffer]. apply elem_of_app. right. unfold delivered.
    apply list_elem_of_In, in_concat. exists c.
    split; [|by apply list_elem_of_In].
    rewrite <- list_elem_of_In, list_elem_of_filter. done.
Qed.

Lemma no_completed_row_lost_witness :
  ∃ final u,
    splitFileByResult sampleUnits 1 ([header; debitVB] ++ voucher2 :: [detail])
      = (final, None) ∧
    u ∈ final ∧ debitVB ∈ Buffer u.
Proof.
  apply (no_completed_row_lost 1 sampleUnits [header; debitVB] voucher2
           [detail] debitVB).
  - vm_compute. lia.
  - repeat constructor.
  - solve_line.
  - solve_line.
  - right. left.
Defined.

(** ** Stopping and what is kept *)

(** X4: the loop reads the rows in front of the first row that does not
    have 8 fields without stopping, then stops there with the fatal
    CSV error, never with an index panic, whatever follows that
    row; the units in memory are then those of partitioning the rows in
    front of it. *)
Theorem stops_at_first_bad_row resultUnits d (read : list Line) (bad : Line)
    (rest : list Line) :
  Forall (λ l, length l = 8) read → length bad ≠ 8 →
  (splitFileByResult resultUnits d read).2 = None ∧
  splitFileByResult resultUnits d (read ++ bad :: rest) =
    ((splitFileByResult resultUnits d read).1, Some FatalInvalidCSV).
Proof.
  intros H8 Hbad. unfold splitFileByResult.
  destruct (splitLoop_total d (initState resultUnits) read H8) as (st & Hst).
  rewrite splitLoop_app, Hst. cbn. by rewrite processLine_bad.
Qed.

Lemma stops_at_first_bad_row_witness :
  splitFileByResult sampleUnits 1
    ([header; debitVB; voucher2] ++ shortLine :: [voucher3]) =
    ([mkResultUnit "VB" [header; debitVB]; mkResultUnit "Ztyret" []],
     Some FatalInvalidCSV).
Proof.
  destruct (stops_at_first_bad_row sampleUnits 1 [header; debitVB; voucher2]
              shortLine [voucher3]) as (_ & Hstop).
  - repeat constructor.
  - discriminate.
  - exact Hstop.
Defined.

(** X5: partitioning never adds, removes, reorders or renames a unit:
    the names of the units it returns, or had in memory when it
    stopped, are the names it was given, position by position. *)
Theorem partition_keeps_units resultUnits d lines :
  Name <$> (splitFileByResult resultUnits d lines).1 = Name <$> resultUnits.
Proof.
  unfold splitFileByResult.
  destruct (splitLoop d (initState resultUnits) lines) as [st e] eqn:Hrun.
  by destruct (splitLoop_buffers _ _ _ _ _ Hrun) as (_ & _ & _ & _ & _ & ? & _).
Qed.

Lemma appendNamed_none owner us i cur :
  (∀ u, u ∈ us → Name u ≠ owner) → appendNamed owner us i cur = cur.
Proof.
  revert i cur. induction us as [|o us IH]; intros i cur Hnone; cbn; [done|].
  rewrite bool_decide_eq_false_2 by (apply Hnone; left).
  apply IH. intros u Hu. apply Hnone. by right.
Qed.

(** X6: an ownership line whose owner is the name of no unit is kept in
    the pending buffer and activates nothing. *)
Theorem unknown_owner_activates_nothing d st line owner :
  length line = 8 → ownerOf line = Some owner →
  (∀ u, u ∈ units st → Name u ≠ owner) →
  processLine d st line =
    Ok (mkState (units st) (buffer st ++ [line]) (currentResultUnits st)).
Proof.
  intros Hlen Hown Hnone.
  rewrite (processLine_ownership _ _ _ owner) by done. do 2 f_equal.
  unfold activate. destruct (existsb _ _); [done|].
  by apply appendNamed_none.
Qed.

Lemma unknown_owner_activates_nothing_witness :
  processLine 0 (mkState [mkResultUnit "Ztyret" []] [header] []) debitVB =
    Ok (mkState [mkResultUnit "Ztyret" []] ([header] ++ [debitVB]) []).
Proof.
  apply (unknown_owner_activates_nothing 0
           (mkState [mkResultUnit "Ztyret" []] [header] []) debitVB "VB").
  - reflexivity.
  - reflexivity.
  - intros u Hu. apply list_elem_of_singleton in Hu. subst u. discriminate.
Defined.

(** ** Unit discovery *)

Lemma collectOwners_total lines (ownerMap : gmap string bool) :
  Forall (λ l : Line, 5 < length l) lines →
  ∃ ownerMap', collectOwners lines ownerMap = Ok ownerMap'.
Proof.
  intros Hlong. revert ownerMap.
  induction Hlong as [|line lines Hlen _ IH]; intros ownerMap; cbn; [by eexists|].
  unfold field. destruct (line !! 5) as [owner|] eqn:Hl.
  - cbn. repeat case_bool_decide; apply IH.
  - apply lookup_ge_None in Hl. lia.
Qed.

(** X7: unit discovery panics with an index out of range exactly when
    some row has fewer than 6 fields; it then returns no unit at all,
    and otherwise it returns. *)
Theorem discovery_panics_on_short_row lines :
  (Forall (λ l : Line, 5 < length l) lines →
   ∃ resultUnits, findResultUnits lines = Ok resultUnits) ∧
  (Exists (λ l : Line, length l ≤ 5) lines →
   findResultUnits lines = Err PanicIndexOutOfRange).
Proof.
  split.
  - intros Hlong. unfold findResultUnits.
    destruct (collectOwners_total lines ∅ Hlong) as (m & ->). by eexists.
  - intros Hshort. unfold findResultUnits.
    assert (∀ m, collectOwners lines m = Err PanicIndexOutOfRange) as ->; [|done].
    induction Hshort as [line lines Hlen|line lines _ IH]; intros m; cbn.
    + unfold field. destruct (line !! 5) as [owner|] eqn:Hl; [|done].
      apply lookup_lt_Some in Hl. lia.
    + unfold field. destruct (line !! 5) as [owner|]; [cbn|done].
      repeat case_bool_decide; apply IH.
Qed.

(** X8: unit discovery creates exactly one unit, with an empty buffer,
    for every owner named by a row of the input (field 5 neither empty
    nor quoted), and no other unit. *)
Theorem discovery_one_unit_per_owner lines resultUnits :
  findResultUnits lines = Ok resultUnits →
  Forall (λ u, Buffer u = []) resultUnits ∧
  (∀ u, u ∈ resultUnits →
     ∃ line, line ∈ lines ∧ ownerOf line = Some (Name u)) ∧
  (∀ line owner, line ∈ lines → ownerOf line = Some owner →
     ∃ i u, resultUnits !! i = Some u ∧ Name u = owner ∧
       ∀ j u', resultUnits !! j = Some u' → Name u' = owner → j = i).
Proof.
  intros Hfind.
  destruct (findResultUnits_spec _ _ Hfind) as (Hnd & Hempty & Hnames).
  split; [done|]. split.
  - intros u Hu. apply Hnames. by apply list_elem_of_fmap_2.
  - intros line owner Hline Hown.
    assert (owner ∈ Name <$> resultUnits) as Hin by (apply Hnames; eauto).
    apply list_elem_of_lookup in Hin as (i & Hi).
    rewrite list_lookup_fmap in Hi.
    destruct (resultUnits !! i) as [u|] eqn:Hu; [|done].
    cbn in Hi. inversion Hi as [Hname].
    exists i, u. split_and!; [done..|]. intros j u' Hu' Hname'.
    apply (NoDup_lookup _ _ _ owner Hnd); rewrite list_lookup_fmap.
    + by rewrite Hu'; cbn; rewrite Hname'.
    + by rewrite Hu; cbn; rewrite Hname.
Qed.

Lemma discovery_one_unit_per_owner_witness :
  ∃ i u, [mkResultUnit "VB" []; mkResultUnit "Ztyret" []] !! i = Some u ∧
    Name u = "Ztyret" ∧
    ∀ j u', [mkResultUnit "VB" []; mkResultUnit "Ztyret" []] !! j = Some u' →
      Name u' = "Ztyret" → j = i.
Proof.
  destruct (discovery_one_unit_per_owner
              [header; debitVB; debitZtyret; quotedLine; debitZtyret]
              [mkResultUnit "VB" []; mkResultUnit "Ztyret" []])
    as (_ & _ & Hone).
  - vm_compute. reflexivity.
  - apply (Hone debitZtyret "Ztyret").
    + right. right. left.
    + reflexivity.
Defined.

(** X9: with the units discovered from the input itself, a chunk of
    input rows that holds an ownership line always names a unit: it goes
    to the units it names and never falls back to the default unit. *)
Theorem named_group_never_falls_back lines resultUnits d (g : list Line) i :
  findResultUnits lines = Ok resultUnits → g ⊆ lines →
  Exists (λ row, is_Some (ownerOf row)) g →
  routedTo resultUnits d g i = namedBy resultUnits g i.
Proof.
  intros Hfind Hsub (row & Hrow & [owner Hown])%Exists_exists.
  destruct (findResultUnits_spec _ _ Hfind) as (_ & _ & Hnames).
  assert (owner ∈ Name <$> resultUnits) as Hin.
  { apply Hnames. exists row. split; [by apply Hsub|done]. }
  apply list_elem_of_lookup in Hin as (k & Hk).
  rewrite list_lookup_fmap in Hk.
  destruct (resultUnits !! k) as [u|] eqn:Hu; [|done].
  cbn in Hk. inversion Hk as [Hname].
  assert (namedBy resultUnits g k = true) as Hnamed.
  { apply namedBy_touches. exists row, u. split_and!; [done..|]. congruence. }
  unfold routedTo.
  assert (existsb (namedBy resultUnits g) (seq 0 (length resultUnits)) = true)
    as ->.
  { apply existsb_exists. exists k. split; [|done].
    apply in_seq. apply lookup_lt_Some in Hu. lia. }
  cbn. by rewrite andb_false_r, orb_false_r.
Qed.

Lemma named_group_never_falls_back_witness :
  routedTo [mkResultUnit "VB" []; mkResultUnit "Ztyret" []] 1
    [header; debitVB] 1
  = namedBy [mkResultUnit "VB" []; mkResultUnit "Ztyret" []]
      [header; debitVB] 1.
Proof.
  apply (named_group_never_falls_back
           [header; debitVB; voucher2; debitZtyret]
           [mkResultUnit "VB" []; mkResultUnit "Ztyret" []] 1
           [header; debitVB] 1).
  - vm_compute. reflexivity.
  - intros x Hx. apply elem_of_cons in Hx as [->|Hx]; [left|].
    apply list_elem_of_singleton in Hx. subst x. right. left.
  - right. left. eexists. reflexivity.
Defined.

(** ** The whole run *)

(** X10: a run finishes normally exactly when every row has 8 fields,
    some row names the default unit as its owner, and the output
    directory can be created.  Failures of single units in [writeFile]
    do not change how the run ends. *)
Theorem main_finishes_iff io dump outDir lines w :
  status (main io dump outDir lines w) = None ↔
  Forall (λ l, length l = 8) lines ∧
  (∃ line, line ∈ lines ∧ ownerOf line = Some defaultResultUnitName) ∧
  mkdirFails io outDir = false.
Proof.
  unfold main. split.
  - destruct (findResultUnits lines) as [resultUnits|] eqn:Hfind; [|done].
    destruct (findDefault defaultResultUnitName resultUnits) as [d|] eqn:Hd;
      [|done].
    unfold splitFileByResult.
    destruct (splitLoop d (initState resultUnits) lines) as [st e] eqn:Hrun.
    destruct e as [a|]; [done|].
    unfold writeFile, os_MkdirAll.
    destruct (mkdirFails io outDir) eqn:Hdir; [done|]. intros _.
    split_and!; [| |done].
    + destruct (decide (Forall (λ l : Line, length l = 8) lines)) as [|Hno];
        [done|].
      apply not_Forall_Exists in Hno; [|apply _].
      destruct (splitLoop_bad d (initState resultUnits) lines)
        as (_ & _ & _ & st' & _ & _ & _ & _ & Hbad); [done|]. congruence.
    + unfold findDefault in Hd.
      destruct (list_find _ resultUnits) as [[i u]|] eqn:Hf; [|done].
      apply list_find_Some in Hf as (Hi & Hname & _).
      destruct (findResultUnits_spec _ _ Hfind) as (_ & _ & Hnames).
      apply Hnames. rewrite <- Hname. apply list_elem_of_fmap_2.
      apply list_elem_of_lookup. eauto.
  - intros (H8 & (line & Hline & Hown) & Hdir).
    assert (Forall (λ l : Line, 5 < length l) lines) as Hlong.
    { eapply Forall_impl; [exact H8|]. cbn. lia. }
    unfold findResultUnits.
    destruct (collectOwners_total lines ∅ Hlong) as (m & Hm).
    assert (findResultUnits lines
            = Ok ((λ o, mkResultUnit o []) <$> (map_to_list m).*1)) as Hfind.
    { unfold findResultUnits. by rewrite Hm. }
    rewrite Hm. cbn [mbind res_bind].
    set (resultUnits := (λ o, mkResultUnit o []) <$> (map_to_list m).*1) in *.
    destruct (findResultUnits_spec _ _ Hfind) as (_ & _ & Hnames).
    assert (defaultResultUnitName ∈ Name <$> resultUnits) as Hin
      by (apply Hnames; eauto).
    apply list_elem_of_fmap in Hin as (u & Hname & Hu).
    destruct (list_find_elem_of (λ r, Name r = defaultResultUnitName)
                resultUnits u Hu (eq_sym Hname)) as [[d u'] Hf].
    unfold findDefault. rewrite Hf. cbn.
    unfold splitFileByResult.
    destruct (splitLoop_total d (initState resultUnits) lines H8) as (st & ->).
    unfold writeFile, os_MkdirAll. by rewrite Hdir.
Qed.

(** ** Export *)

(** [path.Clean] and [path.Join] on the cases of Go's own tables. *)
Example path_Clean_examples :
  path_Clean <$>
    [ ""; "abc"; "abc/def"; "."; ".."; "../../abc"; "/abc"; "/";
      "abc/"; "./"; "../../"; "/abc/"; "abc//def//ghi"; "///abc"; "//abc//";
      "abc/./def"; "/./abc/def"; "abc/."; "abc/def/ghi/../jkl";
      "abc/def/../ghi/../jkl"; "abc/def/../.."; "/abc/def/../..";
      "abc/def/../../.."; "/abc/def/../../..";
      "abc/def/../../../ghi/jkl/../../../mno"; "abc//./../def";
      "abc/../../././../def" ]
  = [ "."; "abc"; "abc/def"; "."; ".."; "../../abc"; "/abc"; "/";
      "abc"; "."; "../.."; "/abc"; "abc/def/ghi"; "/abc"; "/abc";
      "abc/def"; "/abc/def"; "abc"; "abc/def/jkl";
      "abc/jkl"; "."; "/";
      ".."; "/";
      "../../mno"; "def";
      "../../def" ].
Proof. reflexivity. Qed.

Example path_Join_examples :
  (path_Join "a" "b", path_Join "a" "", path_Join "" "b", path_Join "" "",
   path_Join "/" "a", path_Join "a/b" "../../../xyz", path_Join "a" "b/c")
  = ("a/b", "a", "b", "", "/a", "../xyz", "a/b/c").
Proof. reflexivity. Qed.

(** Two unit names can lead to one output file. *)
Example one_file_for_two_names :
  outFile resultMap "out" dumpCSV (mkResultUnit "X" []) =
    "out/X/13. Verifikatlista.csv" ∧
  outFile resultMap "out" dumpCSV (mkResultUnit "./X" []) =
    "out/X/13. Verifikatlista.csv".
Proof. split; reflexivity. Qed.

Lemma exportUnit_files io resultMap dump exportDir w owner :
  files (exportUnit io resultMap dump exportDir w owner) =
    if writeFails io (outFile resultMap exportDir dump owner)
    then
      match writtenBeforeFailure io (outFile resultMap exportDir dump owner) with
      | None => files w
      | Some n =>
          <[outFile resultMap exportDir dump owner :=
              String.substring 0 n (dataOf dump owner)]> (files w)
      end
    else <[outFile resultMap exportDir dump owner := dataOf dump owner]>
           (files w).
Proof.
  unfold exportUnit, outFile, outFileOf, dataOf, extOf.
  destruct (dump (Buffer owner)) as [[data ext] err]. cbn [fst snd].
  unfold ioutil_WriteFile, os_MkdirAll, logFailure, logf.
  destruct (resultMap !! Name owner) as [targetDir|];
    destruct err as [msg|];
    repeat match goal with
           | |- context [mkdirFails io ?p] => destruct (mkdirFails io p)
           end;
    match goal with
    | |- context [writeFails io ?p] =>
        destruct (writeFails io p); [destruct (writtenBeforeFailure io p)|]
    end; reflexivity.
Qed.

Lemma foldl_exportUnit_frame io resultMap dump exportDir us w p :
  (writeFails io p = true ∧ writtenBeforeFailure io p = None) ∨
    (∀ u, u ∈ us → outFile resultMap exportDir dump u ≠ p) →
  files (foldl (exportUnit io resultMap dump exportDir) w us) !! p
    = files w !! p.
Proof.
  revert w. induction us as [|u us IH]; intros w Hp; cbn [foldl]; [done|].
  rewrite IH.
  - rewrite exportUnit_files.
    destruct (decide (outFile resultMap exportDir dump u = p)) as [Heq|Hne].
    + destruct Hp as [[Hw Hn]|Hp]; [by rewrite Heq, Hw, Hn|].
      destruct (Hp u); [left|done].
    + destruct (writeFails io (outFile resultMap exportDir dump u));
        [destruct (writtenBeforeFailure io (outFile resultMap exportDir dump u))|];
        [|done|]; by apply lookup_insert_ne.
  - destruct Hp as [?|Hp]; [by left|]. right. intros u' Hu'. apply Hp. by right.
Qed.

(** X11: [writeFile] writes under no path name but the output files of
    its units: a path name that is the output file of no unit, or whose
    file cannot be opened for writing, holds after [writeFile] what it
    held before. *)
Theorem writeFile_changes_only_unit_files io resultUnits resultMap dump
    exportDir w p :
  (writeFails io p = true ∧ writtenBeforeFailure io p = None) ∨
    (∀ u, u ∈ resultUnits → outFile resultMap exportDir dump u ≠ p) →
  files (writeFile io resultUnits resultMap dump exportDir w).1 !! p
    = files w !! p.
Proof.
  intros Hp. unfold writeFile, os_MkdirAll.
  destruct (mkdirFails io exportDir); [done|]. cbn [fst].
  by rewrite foldl_exportUnit_frame.
Qed.

Lemma writeFile_changes_only_unit_files_witness :
  files (writeFile ioVBFails
           [mkResultUnit "VB" [header]; mkResultUnit "Ztyret" [voucher2]]
           resultMap dumpCSV "out" emptyWorld).1 !! "out/Ztyret/VB.csv"
  = files emptyWorld !! "out/Ztyret/VB.csv".
Proof.
  apply (writeFile_changes_only_unit_files ioVBFails
           [mkResultUnit "VB" [header]; mkResultUnit "Ztyret" [voucher2]]
           resultMap dumpCSV "out" emptyWorld "out/Ztyret/VB.csv").
  left. split; reflexivity.
Defined.

(** X12: when the output directory can be created and the write of a
    unit's file succeeds, that file holds after [writeFile] the bytes
    the serializer returned for the unit's buffer, unless a later unit
    writes the same path. *)
Theorem unit_file_holds_its_data io us1 owner us2 resultMap dump exportDir w :
  mkdirFails io exportDir = false →
  writeFails io (outFile resultMap exportDir dump owner) = false →
  (∀ u, u ∈ us2 →
     outFile resultMap exportDir dump u
       ≠ outFile resultMap exportDir dump owner) →
  files (writeFile io (us1 ++ owner :: us2) resultMap dump exportDir w).1
    !! outFile resultMap exportDir dump owner
  = Some (dataOf dump owner).
Proof.
  intros Hdir Hwrite Hlater. unfold writeFile, os_MkdirAll. rewrite Hdir.
  cbn [fst]. rewrite foldl_app. cbn [foldl].
  rewrite foldl_exportUnit_frame by (by right).
  rewrite exportUnit_files, Hwrite. apply lookup_insert_eq.
Qed.

Lemma unit_file_holds_its_data_witness :
  files (writeFile ioNeverFails
           ([mkResultUnit "VB" [header]] ++
              mkResultUnit "Ztyret" [voucher2; detail] :: [])
           resultMap dumpCSV "out" emptyWorld).1
    !! outFile resultMap "out" dumpCSV (mkResultUnit "Ztyret" [voucher2; detail])
  = Some (dataOf dumpCSV (mkResultUnit "Ztyret" [voucher2; detail])).
Proof.
  apply (unit_file_holds_its_data ioNeverFails [mkResultUnit "VB" [header]]
           (mkResultUnit "Ztyret" [voucher2; detail]) [] resultMap dumpCSV
           "out" emptyWorld).
  - reflexivity.
  - reflexivity.
  - intros u Hu. by apply elem_of_nil in Hu.
Defined.

(** X13: once the output directory is created, [writeFile] runs to its
    end whatever fails for single units, and the log holds an entry,
    failure or success, on every unit. *)
Theorem export_reports_every_unit io resultUnits resultMap dump exportDir w
    owner :
  mkdirFails io exportDir = false → owner ∈ resultUnits →
  (writeFile io resultUnits resultMap dump exportDir w).2 = None ∧
  ∃ entry,
    entry ∈ logged (writeFile io resultUnits resultMap dump exportDir w).1 ∧
    reports (Name owner) entry.
Proof.
  intros Hdir Hin.
  pose proof (writeFile_reports_every_unit io resultUnits resultMap dump
                exportDir w owner Hdir Hin) as H.
  by destruct (writeFile io resultUnits resultMap dump exportDir w) as [w' e].
Qed.

Lemma export_reports_every_unit_witness :
  (writeFile ioVBFails
     [mkResultUnit "VB" [header]; mkResultUnit "Ztyret" [voucher2]]
     resultMap dumpCSV "out" emptyWorld).2 = None ∧
  ∃ entry,
    entry ∈ logged (writeFile ioVBFails
                     [mkResultUnit "VB" [header]; mkResultUnit "Ztyret" [voucher2]]
                     resultMap dumpCSV "out" emptyWorld).1 ∧
    reports (Name (mkResultUnit "VB" [header])) entry.
Proof.
  apply (export_reports_every_unit ioVBFails
           [mkResultUnit "VB" [header]; mkResultUnit "Ztyret" [voucher2]]
           resultMap dumpCSV "out" emptyWorld (mkResultUnit "VB" [header])).
  - reflexivity.
  - left.
Defined.

Lemma csvText_app (buffer1 buffer2 : list Line) :
  csvText (buffer1 ++ buffer2) = csvText buffer1 +:+ csvText buffer2.
Proof.
  induction buffer1 as [|row buffer1 IH]; [done|].
  cbn [app]. rewrite !csvText_cons, IH.
  by rewrite string_app_assoc, string_app_cons.
Qed.

(** X14: [dumpCSV] never fails, always answers the extension csv, and
    the text of two buffers one after the other is the text of the
    first followed by the text of the second; the empty buffer gives
    the empty text. *)
Theorem dumpCSV_app (buffer1 buffer2 : list Line) :
  dumpCSV (buffer1 ++ buffer2) =
    ((dumpCSV buffer1).1.1 +:+ (dumpCSV buffer2).1.1, "csv", None) ∧
  dumpCSV [] = (EmptyString, "csv", None).
Proof.
  split; [|done].
  pose proof (csvText_app buffer1 buffer2) as H. unfold csvText in H.
  unfold dumpCSV in *. cbn [fst] in *. by rewrite H.
Qed.
